(** * The monitoring database manager of parsl ([parsl/monitoring/db_manager.py])

    A shallow embedding of [DatabaseManager] and of the part of [Database]
    it drives: the two forwarder threads ([_migrate_logs_to_internal]), the
    batch collector ([_get_messages_in_batch]), the classification and
    routing of a batch inside [start], and the loop of [start] itself.

    - Python values are the inductive [pyval]; an operation that can raise
      returns a [result].
    - [time.time()] is an oracle [clock : nat -> Z]: the n-th call made by
      the coordinator thread returns [clock n].  Python's readings are
      floats; only their order and differences are used by the code, so they
      are integers here, in whatever unit the interval is given in.
    - The persistence backend is the list of calls that reached the session
      ([bulk_insert_mappings] / [bulk_update_mappings] followed by commit),
      each with the arguments [insert] or [update] was called with.  A call
      whose mappings cannot be built raises before it reaches the session;
      a failure inside the backend itself is not modelled.
    - The three threads are interleaved by an explicit schedule.  A
      forwarder takes two steps per item, the fetch ([get]) and the
      processing of what it fetched, so that an item can be held by a
      forwarder while the other threads move.  The coordinator takes three
      steps per pass through its loop: the test of the loop condition, the
      priority half of the body and the resource half.  Each half is one
      step because the forwarders only append to the pending buffers and
      never touch the session: an append made while a batch is drawn has
      the same effect as one made just before the call or just after it.
      The five reads of the loop condition are one step as well. *)

From Stdlib Require Import String Ascii.
From Stdlib Require Import ZArith List Bool Lia PeanoNat Btauto.
Import ListNotations.
Local Open Scope string_scope.
Local Open Scope list_scope.

Set Warnings "-register-all".

(** ** Python values *)

Inductive MessageType : Type :=
| TASK_INFO        (* = 0 *)
| RESOURCE_INFO    (* = 1 *)
| WORKFLOW_INFO.   (* = 2 *)

Definition MessageType_value (t : MessageType) : Z :=
  match t with
  | TASK_INFO => 0
  | RESOURCE_INFO => 1
  | WORKFLOW_INFO => 2
  end.

(** The values that travel through the queues: [None], integers, strings,
    members of [MessageType], tuples (lists behave the same for every
    operation used here) and dicts with string keys, kept in insertion
    order. *)
Inductive pyval : Type :=
| VNone
| VInt (n : Z)
| VStr (s : string)
| VEnum (t : MessageType)
| VTuple (items : list pyval)
| VDict (entries : list (string * pyval)).

Inductive exn : Type :=
| KeyError (key : string)
| TypeError
| ValueError
| AttributeError
| IndexError.

Inductive result (A : Type) : Type :=
| Ok (a : A)
| Raise (e : exn).

Arguments Ok {A} a.
Arguments Raise {A} e.

(** ** The operations of Python the code applies to those values *)

(** What [iter(v)] yields: the items of a tuple, the characters of a
    string, the keys of a dict.  [None], integers and enum members are not
    iterable. *)
Definition py_iter (v : pyval) : result (list pyval) :=
  match v with
  | VTuple items => Ok items
  | VStr s => Ok (map (fun c => VStr (String c EmptyString)) (list_ascii_of_string s))
  | VDict entries => Ok (map (fun kv => VStr (fst kv)) entries)
  | VNone | VInt _ | VEnum _ => Raise TypeError
  end.

(** [a, b = v] *)
Definition unpack2 (v : pyval) : result (pyval * pyval) :=
  match py_iter v with
  | Raise e => Raise e
  | Ok [a; b] => Ok (a, b)
  | Ok _ => Raise ValueError
  end.

(** [x == s] for a string literal [s]: only an equal string is equal. *)
Definition eq_str (x : pyval) (s : string) : bool :=
  match x with
  | VStr s' => String.eqb s' s
  | _ => false
  end.

(** [x[-1]]: the last item of a tuple, the last character of a string; a
    dict with string keys has no key [-1]. *)
Definition subscript_last (x : pyval) : result pyval :=
  match x with
  | VTuple items =>
      match rev items with
      | [] => Raise IndexError
      | y :: _ => Ok y
      end
  | VStr s =>
      match rev (list_ascii_of_string s) with
      | [] => Raise IndexError
      | c :: _ => Ok (VStr (String c EmptyString))
      end
  | VDict _ => Raise (KeyError "-1")
  | VNone | VInt _ | VEnum _ => Raise TypeError
  end.

(** [msg_type.value] *)
Definition attr_value (v : pyval) : result Z :=
  match v with
  | VEnum t => Ok (MessageType_value t)
  | _ => Raise AttributeError
  end.

Fixpoint dict_get (entries : list (string * pyval)) (key : string) : option pyval :=
  match entries with
  | [] => None
  | (k, v) :: rest => if String.eqb k key then Some v else dict_get rest key
  end.

(** [m[key] = v] *)
Fixpoint dict_set (entries : list (string * pyval)) (key : string) (v : pyval)
  : list (string * pyval) :=
  match entries with
  | [] => [(key, v)]
  | (k, w) :: rest =>
      if String.eqb k key then (k, v) :: rest else (k, w) :: dict_set rest key v
  end.

(** [key in v] for a string literal [key]: a key of a dict, an item of a
    tuple, a substring of a string. *)
Definition contains_str (key : string) (v : pyval) : result bool :=
  match v with
  | VDict entries =>
      Ok (match dict_get entries key with Some _ => true | None => false end)
  | VTuple items => Ok (existsb (fun it => eq_str it key) items)
  | VStr s => Ok (match String.index 0 key s with Some _ => true | None => false end)
  | VNone | VInt _ | VEnum _ => Raise TypeError
  end.

(** [v[key]] for a string [key]: only a dict takes a string subscript. *)
Definition subscript (v : pyval) (key : string) : result pyval :=
  match v with
  | VDict entries =>
      match dict_get entries key with
      | Some x => Ok x
      | None => Raise (KeyError key)
      end
  | _ => Raise TypeError
  end.

(** [v is not None] *)
Definition is_not_None (v : pyval) : bool :=
  match v with
  | VNone => false
  | _ => true
  end.

(** A batching interval or threshold: a number, or [float('inf')] as
    [close] installs it. *)
Inductive num : Type :=
| Fin (z : Z)
| Inf.

(** [a >= b] for a finite [a]. *)
Definition ge_num (a : Z) (b : num) : bool :=
  match b with
  | Fin z => (z <=? a)%Z
  | Inf => false
  end.

(** ** The persistence backend *)

Definition WORKFLOW : string := "workflow".
Definition TASK : string := "task".
Definition STATUS : string := "status".
Definition RESOURCE : string := "resource".

Inductive db_op : Type :=
| BulkInsert    (* session.bulk_insert_mappings; session.commit *)
| BulkUpdate.   (* session.bulk_update_mappings; session.commit *)

(** One committed call: the arguments [Database.insert] or
    [Database.update] was called with and the mappings it handed to the
    session. *)
Record db_call : Type := {
  c_op : db_op;
  c_table : string;
  c_columns : option (list string);
  c_messages : list pyval;
  c_mappings : list (list (string * pyval))
}.

(** Code that can raise and that writes to the session.  What was committed
    before an exception stays committed. *)
Definition M (A : Type) : Type := list db_call -> result A * list db_call.

Definition ret {A : Type} (a : A) : M A := fun sess => (Ok a, sess).

Definition bind {A B : Type} (m : M A) (f : A -> M B) : M B :=
  fun sess =>
    match m sess with
    | (Ok a, sess') => f a sess'
    | (Raise e, sess') => (Raise e, sess')
    end.

Definition lift {A : Type} (r : result A) : M A := fun sess => (r, sess).

Definition commit (c : db_call) : M unit := fun sess => (Ok tt, sess ++ [c]).

Notation "x <- m ;; k" := (bind m (fun x => k))
  (at level 61, m at next level, right associativity).
Notation "' p <- m ;; k" := (bind m (fun p => k))
  (at level 61, p pattern, m at next level, right associativity).
Notation "m ;;; k" := (bind m (fun _ => k))
  (at level 61, right associativity).

Module Database.

(** [table.c.keys()] of the four declared tables, in declaration order;
    [self.meta.tables[table]] raises [KeyError] for any other name. *)
Definition Workflow : list string :=
  ["run_id"; "workflow_name"; "workflow_version"; "time_began";
   "time_completed"; "host"; "user"; "rundir"; "tasks_failed_count";
   "tasks_completed_count"].

Definition Status : list string :=
  ["task_id"; "task_status_name"; "timestamp"; "run_id"].

Definition Task : list string :=
  ["task_id"; "run_id"; "task_executor"; "task_func_name";
   "task_time_submitted"; "task_time_returned"; "task_memoize";
   "task_inputs"; "task_outputs"; "task_stdin"; "task_stdout"].

Definition Resource : list string :=
  ["task_id"; "timestamp"; "run_id"; "psutil_process_pid";
   "psutil_process_cpu_percent"; "psutil_process_memory_percent";
   "psutil_process_children_count"; "psutil_process_time_user";
   "psutil_process_time_system"; "psutil_process_memory_virtual";
   "psutil_process_memory_resident"; "psutil_process_disk_read";
   "psutil_process_disk_write"; "psutil_process_status"].

Definition tables (table : string) : result (list string) :=
  if String.eqb table WORKFLOW then Ok Workflow
  else if String.eqb table STATUS then Ok Status
  else if String.eqb table TASK then Ok Task
  else if String.eqb table RESOURCE then Ok Resource
  else Raise (KeyError table).

(** The inner loop of [_generate_mappings]: [m[column] = msg[column]]. *)
Fixpoint mapping (columns : list string) (msg : pyval)
         (m : list (string * pyval)) : result (list (string * pyval)) :=
  match columns with
  | [] => Ok m
  | column :: rest =>
      match subscript msg column with
      | Raise e => Raise e
      | Ok v => mapping rest msg (dict_set m column v)
      end
  end.

(** [columns] is [None] for an insert and is then replaced by the keys of
    the table at the first message. *)
Fixpoint _generate_mappings (table : list string) (columns : option (list string))
         (messages : list pyval) : result (list (list (string * pyval))) :=
  match messages with
  | [] => Ok []
  | msg :: rest =>
      let columns' := match columns with None => table | Some c => c end in
      match mapping columns' msg [] with
      | Raise e => Raise e
      | Ok m =>
          match _generate_mappings table (Some columns') rest with
          | Raise e => Raise e
          | Ok mappings => Ok (m :: mappings)
          end
      end
  end.

Definition update (table : string) (columns : list string)
           (messages : list pyval) : M unit :=
  t <- lift (tables table) ;;
  mappings <- lift (_generate_mappings t (Some columns) messages) ;;
  commit {| c_op := BulkUpdate; c_table := table; c_columns := Some columns;
            c_messages := messages; c_mappings := mappings |}.

Definition insert (table : string) (messages : list pyval) : M unit :=
  t <- lift (tables table) ;;
  mappings <- lift (_generate_mappings t None messages) ;;
  commit {| c_op := BulkInsert; c_table := table; c_columns := None;
            c_messages := messages; c_mappings := mappings |}.

End Database.

(** ** The database manager *)

Module DatabaseManager.

(** The [queue_tag] argument of [_migrate_logs_to_internal]; [start] passes
    ['priority'] and ['resource'] and nothing else. *)
Inductive queue_tag : Type :=
| priority
| resource.

(** Where a forwarder thread stands: about to test its loop condition, or
    holding the item its [get] returned, or returned, or dead. *)
Inductive forwarder_pc : Type :=
| FPoll
| FGot (item : pyval)
| FDone
| FCrashed (e : exn).

(** Where the thread running [start] stands: about to test the loop
    condition, about to draw the priority batch, about to draw the resource
    batch, past the loop, or dead. *)
Inductive start_pc : Type :=
| MCheck
| MPriority
| MResource
| MStopped
| MCrashed (e : exn).

(** The fields of the manager, the two queues handed to [start], and the
    three threads. *)
Record state : Type := {
  _kill_event : bool;
  batching_interval : num;
  batching_threshold : num;
  pending_priority_queue : list pyval;
  pending_resource_queue : list pyval;
  priority_queue : list pyval;
  resource_queue : list pyval;
  db : list db_call;
  ticks : nat;
  main_thread : start_pc;
  _priority_queue_pull_thread : forwarder_pc;
  _resource_queue_pull_thread : forwarder_pc
}.

Definition STOP : string := "STOP".

Definition _update (table : string) (columns : list string)
           (messages : list pyval) : M unit :=
  Database.update table columns messages.

Definition _insert (table : string) (messages : list pyval) : M unit :=
  Database.insert table messages.

(** [close]: both batching parameters become [float('inf')] and the kill
    event is set. *)
Definition close (s : state) : state :=
  {| _kill_event := true;
     batching_interval := Inf;
     batching_threshold := Inf;
     pending_priority_queue := pending_priority_queue s;
     pending_resource_queue := pending_resource_queue s;
     priority_queue := priority_queue s;
     resource_queue := resource_queue s;
     db := db s;
     ticks := ticks s;
     main_thread := main_thread s;
     _priority_queue_pull_thread := _priority_queue_pull_thread s;
     _resource_queue_pull_thread := _resource_queue_pull_thread s |}.

(** *** The forwarders *)

Definition logs_queue (tag : queue_tag) (s : state) : list pyval :=
  match tag with
  | priority => priority_queue s
  | resource => resource_queue s
  end.

Definition thread_pc (tag : queue_tag) (s : state) : forwarder_pc :=
  match tag with
  | priority => _priority_queue_pull_thread s
  | resource => _resource_queue_pull_thread s
  end.

Definition set_logs_queue (tag : queue_tag) (q : list pyval) (s : state) : state :=
  {| _kill_event := _kill_event s;
     batching_interval := batching_interval s;
     batching_threshold := batching_threshold s;
     pending_priority_queue := pending_priority_queue s;
     pending_resource_queue := pending_resource_queue s;
     priority_queue := match tag with priority => q | resource => priority_queue s end;
     resource_queue := match tag with priority => resource_queue s | resource => q end;
     db := db s;
     ticks := ticks s;
     main_thread := main_thread s;
     _priority_queue_pull_thread := _priority_queue_pull_thread s;
     _resource_queue_pull_thread := _resource_queue_pull_thread s |}.

Definition set_thread_pc (tag : queue_tag) (pc : forwarder_pc) (s : state) : state :=
  {| _kill_event := _kill_event s;
     batching_interval := batching_interval s;
     batching_threshold := batching_threshold s;
     pending_priority_queue := pending_priority_queue s;
     pending_resource_queue := pending_resource_queue s;
     priority_queue := priority_queue s;
     resource_queue := resource_queue s;
     db := db s;
     ticks := ticks s;
     main_thread := main_thread s;
     _priority_queue_pull_thread :=
       match tag with priority => pc | resource => _priority_queue_pull_thread s end;
     _resource_queue_pull_thread :=
       match tag with priority => _resource_queue_pull_thread s | resource => pc end |}.

(** [self.pending_priority_queue.put(x)] *)
Definition put_pending_priority (x : pyval) (s : state) : state :=
  {| _kill_event := _kill_event s;
     batching_interval := batching_interval s;
     batching_threshold := batching_threshold s;
     pending_priority_queue := pending_priority_queue s ++ [x];
     pending_resource_queue := pending_resource_queue s;
     priority_queue := priority_queue s;
     resource_queue := resource_queue s;
     db := db s;
     ticks := ticks s;
     main_thread := main_thread s;
     _priority_queue_pull_thread := _priority_queue_pull_thread s;
     _resource_queue_pull_thread := _resource_queue_pull_thread s |}.

(** [self.pending_resource_queue.put(x)] *)
Definition put_pending_resource (x : pyval) (s : state) : state :=
  {| _kill_event := _kill_event s;
     batching_interval := batching_interval s;
     batching_threshold := batching_threshold s;
     pending_priority_queue := pending_priority_queue s;
     pending_resource_queue := pending_resource_queue s ++ [x];
     priority_queue := priority_queue s;
     resource_queue := resource_queue s;
     db := db s;
     ticks := ticks s;
     main_thread := main_thread s;
     _priority_queue_pull_thread := _priority_queue_pull_thread s;
     _resource_queue_pull_thread := _resource_queue_pull_thread s |}.

(** The body of the [else] branch of [_migrate_logs_to_internal], once
    [get] has returned [item]: the item is unpacked into [x, addr]; an
    exception other than [queue.Empty] is not caught and ends the thread. *)
Definition forward (tag : queue_tag) (item : pyval) (s : state) : state :=
  match unpack2 item with
  | Raise e => set_thread_pc tag (FCrashed e) s
  | Ok (x, addr) =>
      match tag with
      | priority =>
          if eq_str x STOP
          then set_thread_pc tag FPoll (close s)
          else set_thread_pc tag FPoll (put_pending_priority x s)
      | resource =>
          match subscript_last x with
          | Raise e => set_thread_pc tag (FCrashed e) s
          | Ok y => set_thread_pc tag FPoll (put_pending_resource y s)
          end
      end
  end.

(** One step of a forwarder thread.  At [FPoll] it tests
    [not kill_event.is_set() or logs_queue.qsize() != 0] and, when that
    holds, tries [get(block=False)]: on an empty queue [queue.Empty] is
    caught and the loop continues. *)
Definition _migrate_logs_to_internal (tag : queue_tag) (s : state) : state :=
  match thread_pc tag s with
  | FPoll =>
      match logs_queue tag s with
      | [] => if _kill_event s then set_thread_pc tag FDone s else s
      | item :: rest => set_thread_pc tag (FGot item) (set_logs_queue tag rest s)
      end
  | FGot item => forward tag item s
  | FDone => s
  | FCrashed _ => s
  end.

(** *** The batch collector *)

Section Clock.

Variable clock : nat -> Z.

(** The [while True] loop of [_get_messages_in_batch].  [tick] counts the
    calls of [time.time()] made so far; a [get] on an empty queue raises
    [queue.Empty], which breaks out of the loop. *)
Fixpoint batch_loop (start : Z) (interval threshold : num)
         (msg_queue messages : list pyval) (tick : nat)
  : list pyval * list pyval * nat :=
  if ge_num (clock tick - start)%Z interval
     || ge_num (Z.of_nat (length messages)) threshold
  then (messages, msg_queue, S tick)
  else match msg_queue with
       | [] => (messages, [], S tick)
       | x :: rest =>
           batch_loop start interval threshold rest (messages ++ [x]) (S tick)
       end.

(** Returns the batch, what is left in the queue and the tick counter. *)
Definition _get_messages_in_batch (msg_queue : list pyval)
           (interval threshold : num) (tick : nat)
  : list pyval * list pyval * nat :=
  batch_loop (clock tick) interval threshold msg_queue [] (S tick).

(** *** Classification and routing of the priority batch *)

Definition workflow_end_columns : list string :=
  ["run_id"; "tasks_failed_count"; "tasks_completed_count"; "time_completed"].

Definition workflow_counter_columns : list string :=
  ["run_id"; "tasks_failed_count"; "tasks_completed_count"].

Definition task_update_columns : list string :=
  ["task_time_returned"; "run_id"; "task_id"].

(** The [for msg_type, msg in messages] loop of [start]. *)
Fixpoint classify (messages update_messages insert_messages all_messages : list pyval)
  : M (list pyval * list pyval * list pyval) :=
  match messages with
  | [] => ret (update_messages, insert_messages, all_messages)
  | item :: rest =>
      ' (msg_type, msg) <- lift (unpack2 item) ;;
      v <- lift (attr_value msg_type) ;;
      if (v =? MessageType_value WORKFLOW_INFO)%Z
      then
        start_message <- lift (contains_str "python_version" msg) ;;
        (if start_message : bool
         then _insert WORKFLOW [msg]
         else _update WORKFLOW workflow_end_columns [msg]) ;;;
        classify rest update_messages insert_messages all_messages
      else
        returned <- lift (subscript msg "task_time_returned") ;;
        if is_not_None returned
        then classify rest (update_messages ++ [msg]) insert_messages
                      (all_messages ++ [msg])
        else classify rest update_messages (insert_messages ++ [msg])
                      (all_messages ++ [msg])
  end.

Definition nonempty (l : list pyval) : bool :=
  match l with
  | [] => false
  | _ :: _ => true
  end.

(** The first half of the loop body of [start], after the batch is drawn. *)
Definition route_priority (messages : list pyval) : M unit :=
  ' (update_messages, insert_messages, all_messages) <- classify messages [] [] [] ;;
  _update WORKFLOW workflow_counter_columns update_messages ;;;
  (if nonempty insert_messages then _insert TASK insert_messages else ret tt) ;;;
  (if nonempty update_messages
   then _update TASK task_update_columns update_messages
   else ret tt) ;;;
  _insert STATUS all_messages.

(** The second half. *)
Definition route_resource (messages : list pyval) : M unit :=
  _insert RESOURCE messages.

(** *** The loop of [start] *)

(** The [while] condition. *)
Definition start_condition (s : state) : bool :=
  negb (_kill_event s)
  || negb (length (pending_priority_queue s) =? 0)%nat
  || negb (length (pending_resource_queue s) =? 0)%nat
  || negb (length (priority_queue s) =? 0)%nat
  || negb (length (resource_queue s) =? 0)%nat.

Definition set_main_thread (pc : start_pc) (s : state) : state :=
  {| _kill_event := _kill_event s;
     batching_interval := batching_interval s;
     batching_threshold := batching_threshold s;
     pending_priority_queue := pending_priority_queue s;
     pending_resource_queue := pending_resource_queue s;
     priority_queue := priority_queue s;
     resource_queue := resource_queue s;
     db := db s;
     ticks := ticks s;
     main_thread := pc;
     _priority_queue_pull_thread := _priority_queue_pull_thread s;
     _resource_queue_pull_thread := _resource_queue_pull_thread s |}.

(** The coordinator after a half of the loop body: what is left of the
    pending queue it drew from, the session, the clock and where it goes. *)
Definition after_priority (rest : list pyval) (sess : list db_call) (tick : nat)
           (pc : start_pc) (s : state) : state :=
  {| _kill_event := _kill_event s;
     batching_interval := batching_interval s;
     batching_threshold := batching_threshold s;
     pending_priority_queue := rest;
     pending_resource_queue := pending_resource_queue s;
     priority_queue := priority_queue s;
     resource_queue := resource_queue s;
     db := sess;
     ticks := tick;
     main_thread := pc;
     _priority_queue_pull_thread := _priority_queue_pull_thread s;
     _resource_queue_pull_thread := _resource_queue_pull_thread s |}.

Definition after_resource (rest : list pyval) (sess : list db_call) (tick : nat)
           (pc : start_pc) (s : state) : state :=
  {| _kill_event := _kill_event s;
     batching_interval := batching_interval s;
     batching_threshold := batching_threshold s;
     pending_priority_queue := pending_priority_queue s;
     pending_resource_queue := rest;
     priority_queue := priority_queue s;
     resource_queue := resource_queue s;
     db := sess;
     ticks := tick;
     main_thread := pc;
     _priority_queue_pull_thread := _priority_queue_pull_thread s;
     _resource_queue_pull_thread := _resource_queue_pull_thread s |}.

(** One step of the thread that runs [start]: the test of the loop
    condition, or one half of the loop body.  An exception out of a
    persistence call leaves the loop and ends the thread; the batch it was
    working on has left the pending queue. *)
Definition start (s : state) : state :=
  match main_thread s with
  | MCheck =>
      if start_condition s
      then set_main_thread MPriority s
      else set_main_thread MStopped s
  | MPriority =>
      let '(messages, rest, tick) :=
        _get_messages_in_batch (pending_priority_queue s)
          (batching_interval s) (batching_threshold s) (ticks s) in
      let '(r, sess) := route_priority messages (db s) in
      match r with
      | Ok _ => after_priority rest sess tick MResource s
      | Raise e => after_priority rest sess tick (MCrashed e) s
      end
  | MResource =>
      let '(messages, rest, tick) :=
        _get_messages_in_batch (pending_resource_queue s)
          (batching_interval s) (batching_threshold s) (ticks s) in
      let '(r, sess) := route_resource messages (db s) in
      match r with
      | Ok _ => after_resource rest sess tick MCheck s
      | Raise e => after_resource rest sess tick (MCrashed e) s
      end
  | MStopped => s
  | MCrashed _ => s
  end.

(** *** The three threads together *)

Inductive thread : Type :=
| Coordinator
| Forwarder (tag : queue_tag).

Definition step (t : thread) (s : state) : state :=
  match t with
  | Coordinator => start s
  | Forwarder tag => _migrate_logs_to_internal tag s
  end.

(** A schedule names the thread that takes each successive step. *)
Definition run (schedule : list thread) (s : state) : state :=
  fold_left (fun s t => step t s) schedule s.

End Clock.

(** The manager as [__init__] builds it and [start] finds it before its
    first test of the loop condition, the two channels holding what the
    producers have sent. *)
Definition initial (interval threshold : num) (priority_msgs resource_msgs : list pyval)
  : state :=
  {| _kill_event := false;
     batching_interval := interval;
     batching_threshold := threshold;
     pending_priority_queue := [];
     pending_resource_queue := [];
     priority_queue := priority_msgs;
     resource_queue := resource_msgs;
     db := [];
     ticks := 0;
     main_thread := MCheck;
     _priority_queue_pull_thread := FPoll;
     _resource_queue_pull_thread := FPoll |}.

End DatabaseManager.

Import DatabaseManager.

(** ** Vocabulary of the properties *)

(** What the [for] loop of [start] takes an item of the priority batch
    for: a workflow start or end message, or a task message without or with
    a return time.  [None] when one of its look-ups raises. *)
Inductive kind : Type :=
| WorkflowStart
| WorkflowEnd
| TaskNew
| TaskReturned.

Definition kind_of (item : pyval) : option (kind * pyval) :=
  match unpack2 item with
  | Ok (msg_type, msg) =>
      match attr_value msg_type with
      | Ok v =>
          if (v =? MessageType_value WORKFLOW_INFO)%Z
          then match contains_str "python_version" msg with
               | Ok true => Some (WorkflowStart, msg)
               | Ok false => Some (WorkflowEnd, msg)
               | Raise _ => None
               end
          else match subscript msg "task_time_returned" with
               | Ok returned =>
                   if is_not_None returned
                   then Some (TaskReturned, msg)
                   else Some (TaskNew, msg)
               | Raise _ => None
               end
      | Raise _ => None
      end
  | Raise _ => None
  end.

(** The messages of the items of a batch whose kind satisfies [p], in the
    order of the batch. *)
Definition select (p : kind -> bool) (batch : list pyval) : list pyval :=
  flat_map (fun item =>
              match kind_of item with
              | Some (k, msg) => if p k then [msg] else []
              | None => []
              end) batch.

Definition is_task (k : kind) : bool :=
  match k with
  | TaskNew | TaskReturned => true
  | WorkflowStart | WorkflowEnd => false
  end.

Definition is_new (k : kind) : bool :=
  match k with
  | TaskNew => true
  | _ => false
  end.

Definition is_returned (k : kind) : bool :=
  match k with
  | TaskReturned => true
  | _ => false
  end.

(** The persistence calls the manager makes, by operation, table and
    column list. *)
Inductive group : Type :=
| WorkflowInserts
| WorkflowEndUpdates
| WorkflowCounterUpdates
| TaskInserts
| TaskUpdates
| StatusInserts
| ResourceInserts.

Definition signature : Type := db_op * string * option (list string) * list pyval.

Definition call_sig (c : db_call) : signature :=
  (c_op c, c_table c, c_columns c, c_messages c).

Definition call_of (g : group) (messages : list pyval) : signature :=
  match g with
  | WorkflowInserts => (BulkInsert, WORKFLOW, None, messages)
  | WorkflowEndUpdates => (BulkUpdate, WORKFLOW, Some workflow_end_columns, messages)
  | WorkflowCounterUpdates =>
      (BulkUpdate, WORKFLOW, Some workflow_counter_columns, messages)
  | TaskInserts => (BulkInsert, TASK, None, messages)
  | TaskUpdates => (BulkUpdate, TASK, Some task_update_columns, messages)
  | StatusInserts => (BulkInsert, STATUS, None, messages)
  | ResourceInserts => (BulkInsert, RESOURCE, None, messages)
  end.

Definition op_eqb (a b : db_op) : bool :=
  match a, b with
  | BulkInsert, BulkInsert => true
  | BulkUpdate, BulkUpdate => true
  | _, _ => false
  end.

Fixpoint columns_eqb (a b : list string) : bool :=
  match a, b with
  | [], [] => true
  | x :: a', y :: b' => String.eqb x y && columns_eqb a' b'
  | _, _ => false
  end.

Definition in_group (g : group) (c : signature) : bool :=
  let '(op, table, columns, _) := c in
  let '(op', table', columns', _) := call_of g [] in
  op_eqb op op' && String.eqb table table'
  && match columns, columns' with
     | None, None => true
     | Some a, Some b => columns_eqb a b
     | _, _ => false
     end.

(** The calls of a group among those made, and the messages passed to
    them, call after call. *)
Definition calls_of (g : group) (calls : list signature) : list signature :=
  filter (in_group g) calls.

Definition routed (g : group) (calls : list signature) : list pyval :=
  flat_map snd (calls_of g calls).

Definition group_eqb (g g' : group) : bool :=
  match g, g' with
  | WorkflowInserts, WorkflowInserts => true
  | WorkflowEndUpdates, WorkflowEndUpdates => true
  | WorkflowCounterUpdates, WorkflowCounterUpdates => true
  | TaskInserts, TaskInserts => true
  | TaskUpdates, TaskUpdates => true
  | StatusInserts, StatusInserts => true
  | ResourceInserts, ResourceInserts => true
  | _, _ => false
  end.

(** The groups whose calls take one message each, inside the [for] loop. *)
Definition per_message (g : group) : bool :=
  match g with
  | WorkflowInserts | WorkflowEndUpdates => true
  | _ => false
  end.

(** The groups a message of each kind belongs to. *)
Definition goes_to (g : group) (k : kind) : bool :=
  match g, k with
  | WorkflowInserts, WorkflowStart => true
  | WorkflowEndUpdates, WorkflowEnd => true
  | WorkflowCounterUpdates, TaskReturned => true
  | TaskInserts, TaskNew => true
  | TaskUpdates, TaskReturned => true
  | StatusInserts, TaskNew => true
  | StatusInserts, TaskReturned => true
  | _, _ => false
  end.

(** The per-message Workflow calls of the [for] loop. *)
Definition workflow_calls (batch : list pyval) : list signature :=
  flat_map (fun item =>
              match kind_of item with
              | Some (WorkflowStart, msg) => [call_of WorkflowInserts [msg]]
              | Some (WorkflowEnd, msg) => [call_of WorkflowEndUpdates [msg]]
              | _ => []
              end) batch.

(** The calls that follow the [for] loop. *)
Definition task_calls (batch : list pyval) : list signature :=
  [call_of WorkflowCounterUpdates (select is_returned batch)]
  ++ (if nonempty (select is_new batch)
      then [call_of TaskInserts (select is_new batch)] else [])
  ++ (if nonempty (select is_returned batch)
      then [call_of TaskUpdates (select is_returned batch)] else [])
  ++ [call_of StatusInserts (select is_task batch)].

(** The three components of what [_get_messages_in_batch] returns here. *)
Definition batch_of (r : list pyval * list pyval * nat) : list pyval := fst (fst r).
Definition rest_of (r : list pyval * list pyval * nat) : list pyval := snd (fst r).
Definition tick_of (r : list pyval * list pyval * nat) : nat := snd r.

(** The time budget has not elapsed at any reading of the clock from the
    [lo]-th to the [hi]-th, measured from any earlier reading in that
    range. *)
Definition within_budget (clock : nat -> Z) (interval : num) (lo hi : nat) : Prop :=
  forall i j, (lo <= i)%nat -> (i <= j)%nat -> (j <= hi)%nat ->
              ge_num (clock j - clock i)%Z interval = false.

(** [msg[column]] succeeds for every column of the list. *)
Definition has_fields (columns : list string) (msg : pyval) : bool :=
  forallb (fun column =>
             match subscript msg column with
             | Ok _ => true
             | Raise _ => false
             end) columns.

(** The columns [_generate_mappings] goes through. *)
Definition columns_used (table : list string) (columns : option (list string))
  : list string :=
  match columns with
  | None => table
  | Some c => c
  end.

(** The columns the calls a message of each kind is passed to look up. *)
Definition fields (k : kind) : list string :=
  match k with
  | WorkflowStart => Database.Workflow
  | WorkflowEnd => workflow_end_columns
  | TaskNew => Database.Task ++ Database.Status
  | TaskReturned =>
      workflow_counter_columns ++ task_update_columns ++ Database.Status
  end.

(** An item of the priority batch is well formed when the loop can tell
    its kind and the message has every field looked up for that kind. *)
Definition well_formed (item : pyval) : bool :=
  match kind_of item with
  | Some (k, msg) => has_fields (fields k) msg
  | None => false
  end.

(** The [for] loop gets past the item: it can tell its kind and, for a
    workflow message, the call it makes for it does not raise. *)
Definition loop_accepts (item : pyval) : bool :=
  match kind_of item with
  | Some (k, msg) => is_task k || has_fields (fields k) msg
  | None => false
  end.

(** A piece of the loop body that makes the calls [sigs] one after the
    other when [ok] holds, and otherwise raises after some of them but not
    all. *)
Definition makes_calls (m : M unit) (ok : bool) (sigs : list signature) : Prop :=
  forall sess,
    if ok
    then exists calls, m sess = (Ok tt, sess ++ calls) /\ map call_sig calls = sigs
    else exists e calls more,
        m sess = (Raise e, sess ++ calls)
        /\ sigs = map call_sig calls ++ more /\ more <> [].

(** An item is a tagged message, a member of [MessageType] with a dict,
    that lacks a field: a task message without the key
    [task_time_returned] (the only way the loop cannot tell the kind of
    such an item), or a message without one of the columns looked up for
    its kind. *)
Definition lacks_field (item : pyval) : bool :=
  match unpack2 item with
  | Ok (VEnum _, VDict _) =>
      match kind_of item with
      | Some (k, msg) => negb (has_fields (fields k) msg)
      | None => true
      end
  | _ => false
  end.

(** The payload of a resource channel item is well formed when its last
    component is a message with every column of the Resource table. *)
Definition well_formed_resource (x : pyval) : bool :=
  match subscript_last x with
  | Ok msg => has_fields Database.Resource msg
  | Raise _ => false
  end.

(** The item a producer puts on a channel for payload [x]. *)
Definition item_of (p : pyval * pyval) : pyval := VTuple [fst p; snd p].

Definition stop_item (addr : pyval) : pyval := VTuple [VStr STOP; addr].

(** The items a forwarder has still to enqueue: the one it holds and those
    on its channel. *)
Definition to_forward (tag : queue_tag) (s : state) : list pyval :=
  match thread_pc tag s with
  | FGot item => item :: logs_queue tag s
  | _ => logs_queue tag s
  end.

(** The forwarder holds an item it has fetched and not yet enqueued. *)
Definition in_flight (tag : queue_tag) (s : state) : bool :=
  match thread_pc tag s with
  | FGot _ => true
  | _ => false
  end.

(** The message of a resource channel payload, [x[-1]]. *)
Definition resource_message (x : pyval) : pyval :=
  match subscript_last x with
  | Ok msg => msg
  | Raise _ => VNone
  end.

(** The manager when [start] is entered with everything already sent: the
    priority channel holds the payloads [P], each paired with an address,
    and then the sentinel; the resource channel holds the payloads [R]. *)
Definition loaded (interval threshold : num) (P R : list (pyval * pyval))
           (addr : pyval) : state :=
  initial interval threshold (map item_of P ++ [stop_item addr]) (map item_of R).

(** Where the payloads of the priority channel are: passed to the calls of
    their groups ([done]), in the pending buffer, or still to be forwarded
    ([rem]), in this order; the sentinel comes last and the kill event is
    set once it has been forwarded. *)
Definition priority_side (P : list (pyval * pyval)) (addr : pyval) (s : state)
  : Prop :=
  exists (done : list pyval) (rem : list (pyval * pyval)),
    to_forward priority s
    = map item_of rem ++ (if _kill_event s then [] else [stop_item addr])
    /\ (_kill_event s = true -> rem = [])
    /\ map fst P = done ++ pending_priority_queue s ++ map fst rem
    /\ forall g, group_eqb g ResourceInserts = false ->
                 routed g (map call_sig (db s)) = select (goes_to g) done.

(** The same for the resource channel. *)
Definition resource_side (R : list (pyval * pyval)) (s : state) : Prop :=
  exists (done : list pyval) (rem : list (pyval * pyval)),
    to_forward resource s = map item_of rem
    /\ forallb well_formed_resource (map fst rem) = true
    /\ forallb (has_fields Database.Resource) (pending_resource_queue s) = true
    /\ map resource_message (map fst R)
       = done ++ pending_resource_queue s ++ map resource_message (map fst rem)
    /\ routed ResourceInserts (map call_sig (db s)) = done.

Definition groups : list group :=
  [WorkflowInserts; WorkflowEndUpdates; WorkflowCounterUpdates; TaskInserts;
   TaskUpdates; StatusInserts; ResourceInserts].

(** The call is one of those the manager makes. *)
Definition known (c : signature) : bool :=
  existsb (fun g => in_group g c) groups.

(** A forwarder takes the two steps of each of [n] items. *)
Fixpoint forward_all (tag : queue_tag) (n : nat) : list thread :=
  match n with
  | O => []
  | S n' => Forwarder tag :: Forwarder tag :: forward_all tag n'
  end.

(** Both forwarders empty their channels, then the coordinator runs. *)
Definition sequential (np nr : nat) (coordinator_steps : nat) : list thread :=
  forward_all priority (S np) ++ forward_all resource nr
  ++ repeat Coordinator coordinator_steps.

(** The manager after a forwarder has moved items: its pending buffer and
    its channel replaced, the thread back at its loop condition. *)
Definition with_priority (pending queue : list pyval) (s : state) : state :=
  {| _kill_event := _kill_event s;
     batching_interval := batching_interval s;
     batching_threshold := batching_threshold s;
     pending_priority_queue := pending;
     pending_resource_queue := pending_resource_queue s;
     priority_queue := queue;
     resource_queue := resource_queue s;
     db := db s;
     ticks := ticks s;
     main_thread := main_thread s;
     _priority_queue_pull_thread := FPoll;
     _resource_queue_pull_thread := _resource_queue_pull_thread s |}.

Definition with_resource (pending queue : list pyval) (s : state) : state :=
  {| _kill_event := _kill_event s;
     batching_interval := batching_interval s;
     batching_threshold := batching_threshold s;
     pending_priority_queue := pending_priority_queue s;
     pending_resource_queue := pending;
     priority_queue := priority_queue s;
     resource_queue := queue;
     db := db s;
     ticks := ticks s;
     main_thread := main_thread s;
     _priority_queue_pull_thread := _priority_queue_pull_thread s;
     _resource_queue_pull_thread := FPoll |}.

(** The manager once both forwarders have emptied the channels of
    [loaded] and the coordinator has not moved yet. *)
Definition drained (P R : list (pyval * pyval)) : state :=
  {| _kill_event := true;
     batching_interval := Inf;
     batching_threshold := Inf;
     pending_priority_queue := map fst P;
     pending_resource_queue := map resource_message (map fst R);
     priority_queue := [];
     resource_queue := [];
     db := [];
     ticks := 0;
     main_thread := MCheck;
     _priority_queue_pull_thread := FPoll;
     _resource_queue_pull_thread := FPoll |}.

(** The three properties every reachable state of [loaded] has. *)
Definition conserved (P R : list (pyval * pyval)) (addr : pyval) (s : state)
  : Prop :=
  priority_side P addr s /\ resource_side R s
  /\ forallb known (map call_sig (db s)) = true.

(** A message is passed to exactly one of the calls. *)
Definition routed_exactly_once (msg : pyval) (calls : list signature) : Prop :=
  exists before c after,
    calls = before ++ c :: after
    /\ In msg (snd c)
    /\ forall c', In c' (before ++ after) -> ~ In msg (snd c').

(** ** Concrete inputs *)

(** A clock that stands still. *)
Definition frozen_clock : nat -> Z := fun _ => 0%Z.

(** A buffer of 150 messages. *)
Definition buffer150 : list pyval := map (fun n => VInt (Z.of_nat n)) (seq 0 150).

(** A resource sample as the hub forwards it: the message is the last
    component of the payload, which comes paired with the sender's
    address. *)
Definition sample_message : pyval :=
  VDict [("task_id", VInt 1); ("timestamp", VStr "2024-01-01 00:00:00");
         ("run_id", VStr "r1"); ("psutil_process_pid", VInt 4242);
         ("psutil_process_cpu_percent", VInt 7);
         ("psutil_process_memory_percent", VInt 3);
         ("psutil_process_children_count", VInt 0);
         ("psutil_process_time_user", VInt 12);
         ("psutil_process_time_system", VInt 2);
         ("psutil_process_memory_virtual", VInt 1000);
         ("psutil_process_memory_resident", VInt 500);
         ("psutil_process_disk_read", VInt 10);
         ("psutil_process_disk_write", VInt 20);
         ("psutil_process_status", VStr "running")].

Definition sample_payload : pyval :=
  VTuple [VInt 0; VInt 1704067200; VEnum RESOURCE_INFO; sample_message].

Definition sample_address : pyval := VTuple [VStr "127.0.0.1"; VInt 55055].

Definition sample_item : pyval := item_of (sample_payload, sample_address).

(** A manager whose resource channel holds one sample. *)
Definition one_sample : state :=
  initial (Fin 1) (Fin 99999) [] [sample_item].

(** A manager whose resource channel holds the message itself paired with
    the address. *)
Definition message_with_address : state :=
  initial (Fin 1) (Fin 99999) [] [item_of (sample_message, sample_address)].

(** A manager whose priority channel holds the bare string ['STOP']. *)
Definition bare_stop : state :=
  initial (Fin 1) (Fin 99999) [VStr STOP] [].

(** A manager whose priority channel holds the sentinel, paired with an
    address. *)
Definition only_stop : state :=
  initial (Fin 1) (Fin 99999) [stop_item sample_address] [].

(** A task message at submission: every column of the Task and Status
    tables, no return time yet. *)
Definition new_task : pyval :=
  VDict [("task_id", VInt 1); ("run_id", VStr "r1");
         ("task_executor", VStr "htex"); ("task_func_name", VStr "f");
         ("task_time_submitted", VStr "2024-01-01 00:00:00");
         ("task_time_returned", VNone); ("task_memoize", VStr "False");
         ("task_inputs", VNone); ("task_outputs", VNone);
         ("task_stdin", VNone); ("task_stdout", VNone);
         ("task_status_name", VStr "pending");
         ("timestamp", VStr "2024-01-01 00:00:00");
         ("tasks_failed_count", VInt 0); ("tasks_completed_count", VInt 0)].

(** The same task once it has returned. *)
Definition returned_task : pyval :=
  VDict [("task_id", VInt 1); ("run_id", VStr "r1");
         ("task_executor", VStr "htex"); ("task_func_name", VStr "f");
         ("task_time_submitted", VStr "2024-01-01 00:00:00");
         ("task_time_returned", VStr "2024-01-01 00:00:01");
         ("task_memoize", VStr "False");
         ("task_inputs", VNone); ("task_outputs", VNone);
         ("task_stdin", VNone); ("task_stdout", VNone);
         ("task_status_name", VStr "done");
         ("timestamp", VStr "2024-01-01 00:00:01");
         ("tasks_failed_count", VInt 0); ("tasks_completed_count", VInt 1)].

(** A task message without the key [task_time_returned]. *)
Definition task_without_return_time : pyval :=
  VDict [("task_id", VInt 2); ("run_id", VStr "r1");
         ("task_status_name", VStr "pending");
         ("timestamp", VStr "2024-01-01 00:00:02")].

Definition workflow_start : pyval :=
  VDict [("python_version", VStr "3.7.0"); ("run_id", VStr "r1");
         ("workflow_name", VStr "w"); ("workflow_version", VStr "1");
         ("time_began", VStr "2024-01-01 00:00:00"); ("time_completed", VNone);
         ("host", VStr "h"); ("user", VStr "u"); ("rundir", VStr "runinfo/000");
         ("tasks_failed_count", VInt 0); ("tasks_completed_count", VInt 0)].

Definition workflow_end : pyval :=
  VDict [("run_id", VStr "r1"); ("tasks_failed_count", VInt 0);
         ("tasks_completed_count", VInt 1);
         ("time_completed", VStr "2024-01-01 00:00:05")].

(** A message as it travels on the priority channel, tagged with its
    type. *)
Definition tagged (t : MessageType) (msg : pyval) : pyval := VTuple [VEnum t; msg].

(** A manager about to draw the priority batch its pending buffer holds. *)
Definition holding (batch : list pyval) : state :=
  {| _kill_event := false;
     batching_interval := Fin 1;
     batching_threshold := Fin 99999;
     pending_priority_queue := batch;
     pending_resource_queue := [];
     priority_queue := [];
     resource_queue := [];
     db := [];
     ticks := 0;
     main_thread := MPriority;
     _priority_queue_pull_thread := FPoll;
     _resource_queue_pull_thread := FPoll |}.

(** A batch whose last message lacks [task_time_returned], behind a
    workflow start message and a well-formed task message. *)
Definition batch_with_bad_message : list pyval :=
  [tagged WORKFLOW_INFO workflow_start;
   tagged TASK_INFO new_task;
   tagged TASK_INFO task_without_return_time].

(** A cycle with one message of every kind and one resource sample. *)
Definition full_cycle : state :=
  {| _kill_event := false;
     batching_interval := Fin 1;
     batching_threshold := Fin 99999;
     pending_priority_queue :=
       [tagged TASK_INFO new_task; tagged WORKFLOW_INFO workflow_start;
        tagged TASK_INFO returned_task; tagged WORKFLOW_INFO workflow_end];
     pending_resource_queue := [sample_message];
     priority_queue := [];
     resource_queue := [];
     db := [];
     ticks := 0;
     main_thread := MPriority;
     _priority_queue_pull_thread := FPoll;
     _resource_queue_pull_thread := FPoll |}.

(** One new task sent before the sentinel, nothing on the resource
    channel, and the run in which both forwarders finish before the
    coordinator starts. *)
Definition one_task : list (pyval * pyval) :=
  [(tagged TASK_INFO new_task, sample_address)].

Definition one_task_run : state :=
  run frozen_clock (sequential 1 0 4)
      (loaded (Fin 1) (Fin 99999) one_task [] sample_address).

(** A workflow from start to end, with one resource sample. *)
Definition whole_workflow : list (pyval * pyval) :=
  [(tagged WORKFLOW_INFO workflow_start, sample_address);
   (tagged TASK_INFO new_task, sample_address);
   (tagged TASK_INFO returned_task, sample_address);
   (tagged WORKFLOW_INFO workflow_end, sample_address)].

Definition one_resource : list (pyval * pyval) :=
  [(sample_payload, sample_address)].

(** The resource forwarder fetches the sample, the priority forwarder
    meets the sentinel, the coordinator tests its loop condition, and only
    then does the resource forwarder enqueue what it holds. *)
Definition late_enqueue : list thread :=
  [Forwarder resource; Forwarder priority; Forwarder priority; Coordinator;
   Forwarder resource].

(** ** Vocabulary and inputs of the further properties *)

(** A clock that advances by one unit between two readings. *)
Definition ticking_clock : nat -> Z := Z.of_nat.

(** The item does not trigger [close] when the priority forwarder
    processes it: it does not unpack, or its first component is not
    ['STOP']. *)
Definition no_stop (item : pyval) : bool :=
  match unpack2 item with
  | Ok (x, _) => negb (eq_str x STOP)
  | Raise _ => true
  end.

(** The thread running [start] has left the loop, by its end or by an
    exception. *)
Definition terminal (s : state) : bool :=
  match main_thread s with
  | MStopped | MCrashed _ => true
  | MCheck | MPriority | MResource => false
  end.

(** The resource forwarder raises on the item: it does not unpack into two
    components, or its first component has no last item. *)
Definition crashes_resource (item : pyval) : bool :=
  match unpack2 item with
  | Raise _ => true
  | Ok (x, _) =>
      match subscript_last x with
      | Raise _ => true
      | Ok _ => false
      end
  end.

(** The priority forwarder raises on the item: it does not unpack. *)
Definition crashes_priority (item : pyval) : bool :=
  match unpack2 item with
  | Raise _ => true
  | Ok _ => false
  end.

Definition crashed (pc : forwarder_pc) : bool :=
  match pc with
  | FCrashed _ => true
  | _ => false
  end.

(** ** The batch collector *)

Section BatchCollectorFacts.

Variable clock : nat -> Z.

Lemma batch_loop_split start interval threshold q acc tick :
  batch_of (batch_loop clock start interval threshold q acc tick)
    ++ rest_of (batch_loop clock start interval threshold q acc tick)
  = acc ++ q.
Proof.
  revert acc tick.
  induction q as [|x q IH]; intros acc tick; simpl.
  - destruct (_ || _); reflexivity.
  - destruct (_ || _); [reflexivity|].
    rewrite IH, <- app_assoc. reflexivity.
Qed.

Lemma get_batch_split q interval threshold tick :
  batch_of (_get_messages_in_batch clock q interval threshold tick)
    ++ rest_of (_get_messages_in_batch clock q interval threshold tick)
  = q.
Proof. unfold _get_messages_in_batch. apply batch_loop_split. Qed.

Lemma batch_loop_bound start interval K q acc tick :
  (Z.of_nat (length
     (batch_of (batch_loop clock start interval (Fin K) q acc tick)))
   <= Z.max K (Z.of_nat (length acc)))%Z.
Proof.
  unfold batch_of. revert acc tick.
  induction q as [|x q IH]; intros acc tick; simpl.
  - destruct (_ || _); simpl; lia.
  - destruct (ge_num _ interval) eqn:Ht; simpl; [lia|].
    destruct (K <=? Z.of_nat (length acc))%Z eqn:Hk; simpl; [lia|].
    apply Z.leb_gt in Hk.
    specialize (IH (acc ++ [x]) (S tick)).
    rewrite length_app in IH. simpl in IH. lia.
Qed.

(** While the budget lasts the loop takes messages until the threshold is
    met or the queue is empty. *)
Lemma batch_loop_within start interval K q acc tick :
  (forall j, (tick <= j)%nat -> (j <= tick + length q)%nat ->
             ge_num (clock j - start)%Z interval = false) ->
  batch_loop clock start interval (Fin K) q acc tick
  = (acc ++ firstn (Z.to_nat K - length acc) q,
     skipn (Z.to_nat K - length acc) q,
     S (tick + Nat.min (length q) (Z.to_nat K - length acc))).
Proof.
  revert acc tick.
  induction q as [|x q IH]; intros acc tick Hb; simpl.
  - rewrite (Hb tick) by lia. simpl.
    rewrite firstn_nil, skipn_nil, app_nil_r, Nat.add_0_r.
    destruct (K <=? _)%Z; reflexivity.
  - rewrite (Hb tick) by (simpl; lia). simpl.
    destruct (K <=? Z.of_nat (length acc))%Z eqn:Hk.
    + apply Z.leb_le in Hk.
      replace (Z.to_nat K - length acc)%nat with 0%nat by lia.
      simpl. rewrite app_nil_r, Nat.add_0_r. reflexivity.
    + apply Z.leb_gt in Hk.
      rewrite IH by (intros j H1 H2; apply Hb; simpl; lia).
      rewrite length_app. simpl.
      destruct (Z.to_nat K - length acc)%nat as [|d] eqn:Hd; [lia|].
      replace (Z.to_nat K - (length acc + 1))%nat with d by lia.
      simpl. rewrite <- app_assoc. simpl.
      repeat f_equal. lia.
Qed.

Lemma get_batch_within interval K q tick :
  within_budget clock interval tick (S tick + length q) ->
  _get_messages_in_batch clock q interval (Fin K) tick
  = (firstn (Z.to_nat K) q, skipn (Z.to_nat K) q,
     S (S tick + Nat.min (length q) (Z.to_nat K))).
Proof.
  intros Hb. unfold _get_messages_in_batch.
  rewrite batch_loop_within.
  - simpl. rewrite Nat.sub_0_r. reflexivity.
  - intros j H1 H2. apply Hb; lia.
Qed.

Lemma batch_loop_inf start q acc tick :
  batch_loop clock start Inf Inf q acc tick
  = (acc ++ q, [], S (tick + length q)).
Proof.
  revert acc tick.
  induction q as [|x q IH]; intros acc tick; simpl.
  - rewrite app_nil_r, Nat.add_0_r. reflexivity.
  - rewrite IH, <- app_assoc. simpl. repeat f_equal. lia.
Qed.

Lemma get_batch_inf q tick :
  _get_messages_in_batch clock q Inf Inf tick = (q, [], S (S tick + length q)).
Proof. unfold _get_messages_in_batch. rewrite batch_loop_inf. reflexivity. Qed.

(** The first test of the loop already finds a zero budget used up, unless
    the clock ran backwards between the two readings. *)
Lemma get_batch_zero q threshold tick :
  (clock tick <= clock (S tick))%Z ->
  _get_messages_in_batch clock q (Fin 0) threshold tick = ([], q, S (S tick)).
Proof.
  intros Hm. unfold _get_messages_in_batch.
  destruct q as [|x q]; simpl.
  - destruct (_ || _); reflexivity.
  - replace (0 <=? clock (S tick) - clock tick)%Z with true
      by (symmetry; apply Z.leb_le; lia).
    reflexivity.
Qed.

End BatchCollectorFacts.

(** C2.  A call of [_get_messages_in_batch] with count threshold [K]
    returns at most [K] messages, whatever the clock and the buffer; and
    with 150 messages in the buffer, threshold 100 and the time budget not
    elapsed, the first call returns the first 100 messages and the next
    call the remaining 50, leaving the buffer empty. *)
Theorem batch_bounding (clock : nat -> Z) (q q150 : list pyval)
        (interval interval' : num) (K : Z) (tick tick' : nat) :
  (0 <= K)%Z ->
  length q150 = 150 ->
  within_budget clock interval' tick' (tick' + 153) ->
  (Z.of_nat (length (batch_of (_get_messages_in_batch clock q interval (Fin K) tick)))
   <= K)%Z
  /\ (let first := _get_messages_in_batch clock q150 interval' (Fin 100) tick' in
      let second := _get_messages_in_batch clock (rest_of first) interval'
                      (Fin 100) (tick_of first) in
      batch_of first = firstn 100 q150
      /\ length (batch_of first) = 100
      /\ batch_of second = skipn 100 q150
      /\ length (batch_of second) = 50
      /\ batch_of first ++ batch_of second = q150
      /\ rest_of second = []).
Proof.
  intros HK Hlen Hb. split.
  - unfold _get_messages_in_batch.
    pose proof (batch_loop_bound clock (clock tick) interval K q [] (S tick)) as H.
    simpl in H. lia.
  - assert (Hs : length (skipn 100 q150) = 50)
      by (rewrite length_skipn; lia).
    assert (E1 : _get_messages_in_batch clock q150 interval' (Fin 100) tick'
                 = (firstn 100 q150, skipn 100 q150,
                    S (S tick' + Nat.min (length q150) 100))).
    { apply (get_batch_within clock interval' 100 q150 tick').
      intros i j H1 H2 H3; apply Hb; lia. }
    cbv zeta. rewrite E1. unfold batch_of, rest_of, tick_of. cbn [fst snd].
    assert (E2 : _get_messages_in_batch clock (skipn 100 q150) interval' (Fin 100)
                   (S (S tick' + Nat.min (length q150) 100))
                 = (firstn 100 (skipn 100 q150), skipn 100 (skipn 100 q150),
                    S (S (S (S tick' + Nat.min (length q150) 100))
                       + Nat.min (length (skipn 100 q150)) 100))).
    { apply (get_batch_within clock interval' 100).
      rewrite Hs, Hlen. intros i j H1 H2 H3; apply Hb; lia. }
    rewrite E2. cbn [fst snd].
    rewrite (@firstn_all2 _ 100 (skipn 100 q150)) by lia.
    split; [reflexivity|].
    split; [rewrite length_firstn; lia|].
    split; [reflexivity|].
    split; [assumption|].
    split; [apply firstn_skipn|].
    apply skipn_all2. lia.
Qed.

Lemma batch_bounding_witness :
  (0 <= 100)%Z
  /\ length buffer150 = 150
  /\ within_budget frozen_clock (Fin 1) 0 (0 + 153)
  /\ (Z.of_nat (length (batch_of
        (_get_messages_in_batch frozen_clock buffer150 (Fin 1) (Fin 100) 0)))
      <= 100)%Z
  /\ batch_of (_get_messages_in_batch frozen_clock buffer150 (Fin 1) (Fin 100) 0)
     = firstn 100 buffer150
  /\ batch_of
       (_get_messages_in_batch frozen_clock
          (rest_of (_get_messages_in_batch frozen_clock buffer150
                      (Fin 1) (Fin 100) 0))
          (Fin 1) (Fin 100)
          (tick_of (_get_messages_in_batch frozen_clock buffer150
                      (Fin 1) (Fin 100) 0)))
     = skipn 100 buffer150.
Proof.
  assert (H0 : (0 <= 100)%Z) by lia.
  assert (H1 : length buffer150 = 150) by reflexivity.
  assert (H2 : within_budget frozen_clock (Fin 1) 0 (0 + 153))
    by (intros i j _ _ _; reflexivity).
  refine (conj H0 (conj H1 (conj H2 _))).
  destruct (batch_bounding frozen_clock buffer150 buffer150
              (Fin 1) (Fin 1) 100 0 0 H0 H1 H2)
    as (Hbound & Hfirst & _ & Hsecond & _).
  exact (conj Hbound (conj Hfirst Hsecond)).
Defined.

(** C3 as stated fails: with a zero time budget and an infinite threshold
    the call returns nothing and leaves both messages in the buffer. *)
Lemma zero_budget_counterexample :
  _get_messages_in_batch frozen_clock [VInt 1; VInt 2] (Fin 0) Inf 0
  = ([], [VInt 1; VInt 2], 2)
  /\ batch_of (_get_messages_in_batch frozen_clock [VInt 1; VInt 2] (Fin 0) Inf 0)
     <> [VInt 1; VInt 2].
Proof. split; [reflexivity | discriminate]. Qed.

(** C3, amended.  With an infinite threshold and an infinite time budget,
    the values [close] installs, a call returns everything in the buffer
    and leaves it empty; with a zero time budget and a clock that has not
    gone backwards it returns nothing and leaves the buffer as it was. *)
Theorem degenerate_batch_policy (clock : nat -> Z) (q : list pyval)
        (threshold : num) (tick : nat) :
  (clock tick <= clock (S tick))%Z ->
  (batch_of (_get_messages_in_batch clock q Inf Inf tick) = q
   /\ rest_of (_get_messages_in_batch clock q Inf Inf tick) = [])
  /\ (batch_of (_get_messages_in_batch clock q (Fin 0) threshold tick) = []
      /\ rest_of (_get_messages_in_batch clock q (Fin 0) threshold tick) = q).
Proof.
  intros Hm. rewrite get_batch_inf, get_batch_zero by assumption.
  repeat split.
Qed.

Lemma degenerate_batch_policy_witness :
  (frozen_clock 0 <= frozen_clock 1)%Z
  /\ batch_of (_get_messages_in_batch frozen_clock [VInt 1; VInt 2] Inf Inf 0)
     = [VInt 1; VInt 2]
  /\ batch_of (_get_messages_in_batch frozen_clock [VInt 1; VInt 2] (Fin 0) Inf 0)
     = [].
Proof.
  assert (H : (frozen_clock 0 <= frozen_clock 1)%Z) by (unfold frozen_clock; lia).
  pose proof (degenerate_batch_policy frozen_clock [VInt 1; VInt 2] Inf 0 H)
    as [[H1 _] [H2 _]].
  repeat split; assumption.
Defined.

(** ** The loop condition of [start] *)

Lemma length_eqb_0 (l : list pyval) :
  negb (length l =? 0)%nat = true <-> l <> [].
Proof. destruct l; simpl; split; intros H; try discriminate; congruence. Qed.

Lemma start_condition_true s :
  start_condition s = true <->
  (_kill_event s = false
   \/ pending_priority_queue s <> [] \/ pending_resource_queue s <> []
   \/ priority_queue s <> [] \/ resource_queue s <> []).
Proof.
  unfold start_condition.
  rewrite !orb_true_iff, !length_eqb_0, negb_true_iff. tauto.
Qed.

Lemma start_condition_false s :
  start_condition s = false <->
  (_kill_event s = true
   /\ pending_priority_queue s = [] /\ pending_resource_queue s = []
   /\ priority_queue s = [] /\ resource_queue s = []).
Proof.
  unfold start_condition.
  rewrite !orb_false_iff, negb_false_iff.
  destruct (pending_priority_queue s), (pending_resource_queue s),
    (priority_queue s), (resource_queue s); simpl;
    intuition (try discriminate; try congruence).
Qed.

Lemma start_from_check clock s :
  main_thread s = MCheck ->
  start clock s
  = set_main_thread (if start_condition s then MPriority else MStopped) s.
Proof. unfold start. intros ->. destruct (start_condition s); reflexivity. Qed.

Lemma start_not_stopping clock s :
  main_thread s <> MCheck -> main_thread s <> MStopped ->
  main_thread (start clock s) <> MStopped.
Proof.
  unfold start. intros H1 H2.
  destruct (main_thread s) eqn:E; try congruence.
  - destruct (_get_messages_in_batch _ _ _ _ _) as [[? ?] ?].
    destruct (route_priority _ _) as [[|] ?]; simpl; discriminate.
  - destruct (_get_messages_in_batch _ _ _ _ _) as [[? ?] ?].
    destruct (route_resource _ _) as [[|] ?]; simpl; discriminate.
Qed.



(** ** The forwarders *)

Lemma subscript_last_tuple front msg :
  subscript_last (VTuple (front ++ [msg])) = Ok msg.
Proof. simpl. rewrite rev_app_distr. reflexivity. Qed.

Lemma unpack2_pair x addr : unpack2 (VTuple [x; addr]) = Ok (x, addr).
Proof. reflexivity. Qed.

Lemma unpack2_ok item x addr :
  unpack2 item = Ok (x, addr) -> py_iter item = Ok [x; addr].
Proof.
  unfold unpack2. destruct (py_iter item) as [l|e]; [|discriminate].
  destruct l as [|a [|b [|c l]]]; try discriminate.
  intros H; inversion H; reflexivity.
Qed.

(** The two steps a forwarder takes for the item at the head of its
    channel: the fetch and the processing of what it fetched. *)
Lemma forwarder_fetch tag s item rest :
  thread_pc tag s = FPoll -> logs_queue tag s = item :: rest ->
  _migrate_logs_to_internal tag s
  = set_thread_pc tag (FGot item) (set_logs_queue tag rest s).
Proof. unfold _migrate_logs_to_internal. intros -> ->. reflexivity. Qed.

Lemma forwarder_process tag s item :
  thread_pc tag s = FGot item ->
  _migrate_logs_to_internal tag s = forward tag item s.
Proof. unfold _migrate_logs_to_internal. intros ->. reflexivity. Qed.

Lemma forwarder_two_steps tag s item rest :
  thread_pc tag s = FPoll -> logs_queue tag s = item :: rest ->
  _migrate_logs_to_internal tag (_migrate_logs_to_internal tag s)
  = forward tag item (set_thread_pc tag (FGot item) (set_logs_queue tag rest s)).
Proof.
  intros H1 H2. rewrite (forwarder_fetch tag s item rest H1 H2).
  apply forwarder_process. destruct tag; reflexivity.
Qed.

(** C8 as stated fails: what reaches the resource pending buffer is the
    last component of the payload, not the payload that came paired with
    the address; and when the message itself comes paired with the address
    the subscript raises and nothing is enqueued. *)
Lemma resource_forwarding_counterexample :
  pending_resource_queue
    (_migrate_logs_to_internal resource
       (_migrate_logs_to_internal resource one_sample))
  = [sample_message]
  /\ [sample_message] <> [sample_payload]
  /\ thread_pc resource
       (_migrate_logs_to_internal resource
          (_migrate_logs_to_internal resource message_with_address))
     = FCrashed (KeyError "-1")
  /\ pending_resource_queue
       (_migrate_logs_to_internal resource
          (_migrate_logs_to_internal resource message_with_address))
     = [].
Proof.
  split; [reflexivity|]. split; [discriminate|]. split; reflexivity.
Qed.

(** C8, amended.  For an item [(x, addr)] received on the resource channel
    the forwarder appends [x[-1]], the last component of the payload, to
    the resource pending buffer and drops the address and the rest of the
    payload; when [x[-1]] raises the thread ends with nothing enqueued.
    Nothing else is enqueued and nothing else changes. *)
Theorem resource_forwarding (s : state) (x addr : pyval) (rest : list pyval) :
  thread_pc resource s = FPoll ->
  resource_queue s = VTuple [x; addr] :: rest ->
  let s' := _migrate_logs_to_internal resource
              (_migrate_logs_to_internal resource s) in
  resource_queue s' = rest
  /\ pending_priority_queue s' = pending_priority_queue s
  /\ priority_queue s' = priority_queue s
  /\ _kill_event s' = _kill_event s
  /\ db s' = db s
  /\ match subscript_last x with
     | Ok y =>
         pending_resource_queue s' = pending_resource_queue s ++ [y]
         /\ thread_pc resource s' = FPoll
     | Raise e =>
         pending_resource_queue s' = pending_resource_queue s
         /\ thread_pc resource s' = FCrashed e
     end
  /\ (forall front msg, x = VTuple (front ++ [msg]) -> subscript_last x = Ok msg).
Proof.
  intros H1 H2 s'. subst s'.
  rewrite (forwarder_two_steps resource s _ _ H1 H2).
  unfold forward. rewrite unpack2_pair.
  destruct (subscript_last x) eqn:E; simpl;
    (repeat split; intros front msg ->;
     rewrite subscript_last_tuple in E; congruence).
Qed.

Lemma resource_forwarding_witness :
  thread_pc resource one_sample = FPoll
  /\ resource_queue one_sample = VTuple [sample_payload; sample_address] :: []
  /\ pending_resource_queue
       (_migrate_logs_to_internal resource
          (_migrate_logs_to_internal resource one_sample))
     = pending_resource_queue one_sample ++ [sample_message].
Proof.
  assert (H1 : thread_pc resource one_sample = FPoll) by reflexivity.
  assert (H2 : resource_queue one_sample
               = VTuple [sample_payload; sample_address] :: []) by reflexivity.
  refine (conj H1 (conj H2 _)).
  destruct (resource_forwarding one_sample sample_payload sample_address []
              H1 H2) as (_ & _ & _ & _ & _ & H & _).
  exact (proj1 H).
Defined.



(** A tagged message sent without an address is itself a pair: it unpacks,
    into its type and its dict, and the type is what gets enqueued. *)
Lemma bare_tagged_message_unpacks :
  unpack2 (tagged TASK_INFO new_task) = Ok (VEnum TASK_INFO, new_task)
  /\ pending_priority_queue
       (forward priority (tagged TASK_INFO new_task) only_stop)
     = [VEnum TASK_INFO].
Proof. split; reflexivity. Qed.

(** ** The persistence backend *)

Lemma mapping_spec columns msg m :
  match Database.mapping columns msg m with
  | Ok _ => has_fields columns msg = true
  | Raise _ => has_fields columns msg = false
  end.
Proof.
  revert m. induction columns as [|column columns IH]; intros m; simpl.
  - reflexivity.
  - destruct (subscript msg column); simpl; [apply IH | reflexivity].
Qed.

Lemma generate_mappings_spec table columns messages :
  match Database._generate_mappings table columns messages with
  | Ok _ => forallb (has_fields (columns_used table columns)) messages = true
  | Raise _ => forallb (has_fields (columns_used table columns)) messages = false
  end.
Proof.
  revert columns. induction messages as [|msg messages IH]; intros columns; simpl.
  - reflexivity.
  - fold (columns_used table columns).
    pose proof (mapping_spec (columns_used table columns) msg []) as Hm.
    destruct (Database.mapping _ msg []); rewrite Hm; simpl; [|reflexivity].
    specialize (IH (Some (columns_used table columns))). simpl in IH.
    destruct (Database._generate_mappings _ _ messages); exact IH.
Qed.

Lemma update_spec table t columns messages sess :
  Database.tables table = Ok t ->
  (forallb (has_fields columns) messages = true
   /\ exists c, _update table columns messages sess = (Ok tt, sess ++ [c])
                /\ call_sig c = (BulkUpdate, table, Some columns, messages))
  \/ (forallb (has_fields columns) messages = false
      /\ exists e, _update table columns messages sess = (Raise e, sess)).
Proof.
  intros Ht. unfold _update, Database.update, bind, lift, commit. rewrite Ht.
  pose proof (generate_mappings_spec t (Some columns) messages) as Hg.
  simpl in Hg.
  destruct (Database._generate_mappings t (Some columns) messages).
  - left. split; [exact Hg|]. eexists. split; reflexivity.
  - right. split; [exact Hg|]. eexists. reflexivity.
Qed.

Lemma insert_spec table t messages sess :
  Database.tables table = Ok t ->
  (forallb (has_fields t) messages = true
   /\ exists c, _insert table messages sess = (Ok tt, sess ++ [c])
                /\ call_sig c = (BulkInsert, table, None, messages))
  \/ (forallb (has_fields t) messages = false
      /\ exists e, _insert table messages sess = (Raise e, sess)).
Proof.
  intros Ht. unfold _insert, Database.insert, bind, lift, commit. rewrite Ht.
  pose proof (generate_mappings_spec t None messages) as Hg.
  simpl in Hg.
  destruct (Database._generate_mappings t None messages).
  - left. split; [exact Hg|]. eexists. split; reflexivity.
  - right. split; [exact Hg|]. eexists. reflexivity.
Qed.

Lemma bind_eq {A B : Type} (m : M A) (f : A -> M B) sess :
  bind m f sess
  = match m sess with
    | (Ok a, sess') => f a sess'
    | (Raise e, sess') => (Raise e, sess')
    end.
Proof. reflexivity. Qed.

(** ** One iteration of the [for] loop of [start] *)

Ltac classify_cases :=
  unfold kind_of; cbn [classify]; unfold bind, lift;
  repeat match goal with
    | |- context [match unpack2 ?x with _ => _ end] =>
        destruct (unpack2 x) as [[? ?]|]
    | |- context [match attr_value ?x with _ => _ end] =>
        destruct (attr_value x)
    | |- context [if (?v =? ?w)%Z then _ else _] => destruct (v =? w)%Z
    | |- context [match contains_str ?k ?x with _ => _ end] =>
        destruct (contains_str k x) as [[|]|]
    | |- context [match subscript ?x ?k with _ => _ end] =>
        destruct (subscript x k)
    | |- context [if is_not_None ?r then _ else _] => destruct (is_not_None r)
    end;
  try discriminate.

Lemma classify_workflow_start item msg rest u i a sess :
  kind_of item = Some (WorkflowStart, msg) ->
  classify (item :: rest) u i a sess
  = bind (_insert WORKFLOW [msg]) (fun _ => classify rest u i a) sess.
Proof. classify_cases. intros H; inversion H; subst; reflexivity. Qed.

Lemma classify_workflow_end item msg rest u i a sess :
  kind_of item = Some (WorkflowEnd, msg) ->
  classify (item :: rest) u i a sess
  = bind (_update WORKFLOW workflow_end_columns [msg])
         (fun _ => classify rest u i a) sess.
Proof. classify_cases. intros H; inversion H; subst; reflexivity. Qed.

Lemma classify_task_new item msg rest u i a sess :
  kind_of item = Some (TaskNew, msg) ->
  classify (item :: rest) u i a sess = classify rest u (i ++ [msg]) (a ++ [msg]) sess.
Proof. classify_cases. intros H; inversion H; subst; reflexivity. Qed.

Lemma classify_task_returned item msg rest u i a sess :
  kind_of item = Some (TaskReturned, msg) ->
  classify (item :: rest) u i a sess = classify rest (u ++ [msg]) i (a ++ [msg]) sess.
Proof. classify_cases. intros H; inversion H; subst; reflexivity. Qed.

Lemma classify_unknown item rest u i a sess :
  kind_of item = None ->
  exists e, classify (item :: rest) u i a sess = (Raise e, sess).
Proof. classify_cases; eauto. Qed.

(** ** The whole [for] loop *)

Lemma select_cons p item batch :
  select p (item :: batch)
  = match kind_of item with
    | Some (k, msg) => if p k then [msg] else []
    | None => []
    end ++ select p batch.
Proof. reflexivity. Qed.

Lemma workflow_calls_cons item batch :
  workflow_calls (item :: batch)
  = match kind_of item with
    | Some (WorkflowStart, msg) => [call_of WorkflowInserts [msg]]
    | Some (WorkflowEnd, msg) => [call_of WorkflowEndUpdates [msg]]
    | _ => []
    end ++ workflow_calls batch.
Proof. reflexivity. Qed.

Lemma has_fields_single columns msg :
  forallb (has_fields columns) [msg] = has_fields columns msg.
Proof. simpl. apply andb_true_r. Qed.

(** The loop either gets past every item, and then returns the three
    groups and has made the Workflow call of every workflow message, or
    raises at the first item it does not get past, having made the
    Workflow calls of the items before it. *)
Lemma classify_spec batch : forall u i a sess,
  exists calls,
    snd (classify batch u i a sess) = sess ++ calls
    /\ if forallb loop_accepts batch
       then fst (classify batch u i a sess)
            = Ok (u ++ select is_returned batch, i ++ select is_new batch,
                  a ++ select is_task batch)
            /\ map call_sig calls = workflow_calls batch
       else (exists e, fst (classify batch u i a sess) = Raise e)
            /\ exists more, workflow_calls batch = map call_sig calls ++ more.
Proof.
  induction batch as [|item batch IH]; intros u i a sess.
  - exists []. simpl. rewrite !app_nil_r. auto.
  - rewrite !select_cons, workflow_calls_cons.
    cbn [forallb]. unfold loop_accepts at 1.
    destruct (kind_of item) as [[k msg]|] eqn:E; [destruct k|].
    + rewrite (classify_workflow_start item msg batch u i a sess E), bind_eq.
      cbn [is_task is_returned is_new fields orb app].
      destruct (insert_spec WORKFLOW Database.Workflow [msg] sess eq_refl)
        as [[Hf [c [Hc Hsig]]]|[Hf [e He]]];
        rewrite has_fields_single in Hf; rewrite Hf.
      * rewrite Hc. destruct (IH u i a (sess ++ [c])) as [calls [Hs Hr]].
        exists (c :: calls). rewrite Hs, <- app_assoc. split; [reflexivity|].
        cbn [andb map]. rewrite Hsig.
        destruct (forallb loop_accepts batch).
        -- destruct Hr as [Hr1 Hr2]. rewrite Hr1, Hr2. auto.
        -- destruct Hr as [Hr1 [more Hr2]]. split; [exact Hr1|].
           exists more. rewrite Hr2. reflexivity.
      * rewrite He. exists []. rewrite app_nil_r. cbn [andb]. split; [reflexivity|].
        split; eexists; reflexivity.
    + rewrite (classify_workflow_end item msg batch u i a sess E), bind_eq.
      cbn [is_task is_returned is_new fields orb app].
      destruct (update_spec WORKFLOW Database.Workflow workflow_end_columns [msg]
                  sess eq_refl)
        as [[Hf [c [Hc Hsig]]]|[Hf [e He]]];
        rewrite has_fields_single in Hf; rewrite Hf.
      * rewrite Hc. destruct (IH u i a (sess ++ [c])) as [calls [Hs Hr]].
        exists (c :: calls). rewrite Hs, <- app_assoc. split; [reflexivity|].
        cbn [andb map]. rewrite Hsig.
        destruct (forallb loop_accepts batch).
        -- destruct Hr as [Hr1 Hr2]. rewrite Hr1, Hr2. auto.
        -- destruct Hr as [Hr1 [more Hr2]]. split; [exact Hr1|].
           exists more. rewrite Hr2. reflexivity.
      * rewrite He. exists []. rewrite app_nil_r. cbn [andb]. split; [reflexivity|].
        split; eexists; reflexivity.
    + rewrite (classify_task_new item msg batch u i a sess E).
      cbn [is_task is_returned is_new orb andb app].
      destruct (IH u (i ++ [msg]) (a ++ [msg]) sess) as [calls [Hs Hr]].
      exists calls. split; [exact Hs|].
      rewrite <- !app_assoc in Hr. exact Hr.
    + rewrite (classify_task_returned item msg batch u i a sess E).
      cbn [is_task is_returned is_new orb andb app].
      destruct (IH (u ++ [msg]) i (a ++ [msg]) sess) as [calls [Hs Hr]].
      exists calls. split; [exact Hs|].
      rewrite <- !app_assoc in Hr. exact Hr.
    + destruct (classify_unknown item batch u i a sess E) as [e He].
      rewrite He. exists []. rewrite app_nil_r. cbn [andb app]. split; [reflexivity|].
      split; eexists; reflexivity.
Qed.

(** ** The calls after the loop *)

Lemma makes_calls_update table t columns messages :
  Database.tables table = Ok t ->
  makes_calls (_update table columns messages)
              (forallb (has_fields columns) messages)
              [(BulkUpdate, table, Some columns, messages)].
Proof.
  intros Ht sess.
  destruct (update_spec table t columns messages sess Ht)
    as [[Hf [c [Hc Hsig]]]|[Hf [e He]]]; rewrite Hf.
  - exists [c]. simpl. rewrite Hsig. auto.
  - exists e, [], [(BulkUpdate, table, Some columns, messages)].
    rewrite app_nil_r. repeat split; [assumption | discriminate].
Qed.

Lemma makes_calls_insert table t messages :
  Database.tables table = Ok t ->
  makes_calls (_insert table messages)
              (forallb (has_fields t) messages)
              [(BulkInsert, table, None, messages)].
Proof.
  intros Ht sess.
  destruct (insert_spec table t messages sess Ht)
    as [[Hf [c [Hc Hsig]]]|[Hf [e He]]]; rewrite Hf.
  - exists [c]. simpl. rewrite Hsig. auto.
  - exists e, [], [(BulkInsert, table, None, messages)].
    rewrite app_nil_r. repeat split; [assumption | discriminate].
Qed.

Lemma makes_calls_ret : makes_calls (ret tt) true [].
Proof. intros sess. exists []. rewrite app_nil_r. split; reflexivity. Qed.

Lemma makes_calls_seq m1 m2 ok1 ok2 sigs1 sigs2 :
  makes_calls m1 ok1 sigs1 -> makes_calls m2 ok2 sigs2 ->
  makes_calls (m1 ;;; m2) (ok1 && ok2) (sigs1 ++ sigs2).
Proof.
  intros H1 H2 sess. rewrite bind_eq. specialize (H1 sess).
  destruct ok1; simpl.
  - destruct H1 as [calls1 [E1 S1]]. rewrite E1.
    specialize (H2 (sess ++ calls1)). destruct ok2.
    + destruct H2 as [calls2 [E2 S2]]. exists (calls1 ++ calls2).
      rewrite E2, app_assoc, map_app, S1, S2. auto.
    + destruct H2 as [e [calls2 [more [E2 [S2 Hm]]]]].
      exists e, (calls1 ++ calls2), more.
      rewrite E2, app_assoc, map_app, S1, S2, app_assoc. auto.
  - destruct H1 as [e [calls1 [more [E1 [S1 Hm]]]]]. rewrite E1.
    exists e, calls1, (more ++ sigs2). rewrite S1, app_assoc.
    repeat split. destruct more; [congruence | discriminate].
Qed.

Lemma makes_calls_guarded m columns messages s :
  makes_calls m (forallb (has_fields columns) messages) [s] ->
  makes_calls (if nonempty messages then m else ret tt)
              (forallb (has_fields columns) messages)
              (if nonempty messages then [s] else []).
Proof.
  destruct messages; simpl nonempty; [intros _; apply makes_calls_ret | auto].
Qed.

(** The calls that follow the counters update. *)
Lemma after_counters_spec batch :
  makes_calls
    ((if nonempty (select is_new batch)
      then _insert TASK (select is_new batch) else ret tt) ;;;
     (if nonempty (select is_returned batch)
      then _update TASK task_update_columns (select is_returned batch)
      else ret tt) ;;;
     _insert STATUS (select is_task batch))
    (forallb (has_fields Database.Task) (select is_new batch)
     && (forallb (has_fields task_update_columns) (select is_returned batch)
         && forallb (has_fields Database.Status) (select is_task batch)))
    ((if nonempty (select is_new batch)
      then [call_of TaskInserts (select is_new batch)] else [])
     ++ (if nonempty (select is_returned batch)
         then [call_of TaskUpdates (select is_returned batch)] else [])
     ++ [call_of StatusInserts (select is_task batch)]).
Proof.
  apply makes_calls_seq;
    [apply makes_calls_guarded;
     apply (makes_calls_insert TASK Database.Task); reflexivity|].
  apply makes_calls_seq;
    [apply makes_calls_guarded;
     apply (makes_calls_update TASK Database.Task); reflexivity|].
  apply (makes_calls_insert STATUS Database.Status); reflexivity.
Qed.

(** The calls of the first half of the loop body after the [for] loop. *)
Lemma task_calls_spec batch :
  makes_calls
    (_update WORKFLOW workflow_counter_columns (select is_returned batch) ;;;
     (if nonempty (select is_new batch)
      then _insert TASK (select is_new batch) else ret tt) ;;;
     (if nonempty (select is_returned batch)
      then _update TASK task_update_columns (select is_returned batch)
      else ret tt) ;;;
     _insert STATUS (select is_task batch))
    (forallb (has_fields workflow_counter_columns) (select is_returned batch)
     && (forallb (has_fields Database.Task) (select is_new batch)
         && (forallb (has_fields task_update_columns) (select is_returned batch)
             && forallb (has_fields Database.Status) (select is_task batch))))
    (task_calls batch).
Proof.
  unfold task_calls.
  apply makes_calls_seq;
    [apply (makes_calls_update WORKFLOW Database.Workflow); reflexivity|].
  apply after_counters_spec.
Qed.

Lemma has_fields_app a b msg :
  has_fields (a ++ b) msg = has_fields a msg && has_fields b msg.
Proof. unfold has_fields. apply forallb_app. Qed.

(** Well-formedness of a batch, check by check. *)
Lemma well_formed_split batch :
  forallb well_formed batch
  = forallb loop_accepts batch
    && (forallb (has_fields workflow_counter_columns) (select is_returned batch)
        && (forallb (has_fields Database.Task) (select is_new batch)
            && (forallb (has_fields task_update_columns) (select is_returned batch)
                && forallb (has_fields Database.Status) (select is_task batch)))).
Proof.
  induction batch as [|item batch IH]; [reflexivity|].
  rewrite !select_cons. cbn [forallb]. rewrite IH.
  unfold well_formed, loop_accepts.
  destruct (kind_of item) as [[k msg]|]; [|reflexivity].
  destruct k; cbn [is_task is_new is_returned fields orb app forallb];
    rewrite ?has_fields_app; btauto.
Qed.

(** The first half of the loop body, from the batch to the last call: on a
    well-formed batch it makes the Workflow call of each workflow message
    and then the calls after the loop; on any other batch it raises, having
    made some of these calls, in this order, but not all. *)
Lemma route_priority_spec batch sess :
  exists calls,
    snd (route_priority batch sess) = sess ++ calls
    /\ if forallb well_formed batch
       then fst (route_priority batch sess) = Ok tt
            /\ map call_sig calls = workflow_calls batch ++ task_calls batch
       else (exists e, fst (route_priority batch sess) = Raise e)
            /\ exists more,
                more <> []
                /\ workflow_calls batch ++ task_calls batch = map call_sig calls ++ more.
Proof.
  unfold route_priority. rewrite bind_eq, well_formed_split.
  destruct (classify_spec batch [] [] [] sess) as [calls0 [Hs Hr]].
  destruct (classify batch [] [] [] sess) as [r sess0].
  simpl in Hs, Hr. subst sess0.
  destruct (forallb loop_accepts batch); cbn [andb].
  - destruct Hr as [-> Hw].
    pose proof (task_calls_spec batch (sess ++ calls0)) as Ht.
    destruct (forallb _ _ && _).
    + destruct Ht as [calls1 [E1 S1]]. rewrite E1.
      exists (calls0 ++ calls1). rewrite app_assoc, map_app, Hw, S1. auto.
    + destruct Ht as [e [calls1 [more [E1 [S1 Hm]]]]]. rewrite E1.
      exists (calls0 ++ calls1). rewrite app_assoc, map_app, Hw, S1, app_assoc.
      simpl. split; [reflexivity|]. split; [eexists; reflexivity|]. exists more. auto.
  - destruct Hr as [[e ->] [more Hw]].
    exists calls0. split; [reflexivity|]. split; [eexists; reflexivity|].
    exists (more ++ task_calls batch). rewrite Hw, app_assoc.
    split; [|reflexivity].
    unfold task_calls. destruct more; discriminate.
Qed.

(** ** The groups *)

Lemma in_select p msg batch :
  In msg (select p batch) <->
  exists item k, In item batch /\ kind_of item = Some (k, msg) /\ p k = true.
Proof.
  unfold select. rewrite in_flat_map. split.
  - intros [item [Hi Hm]].
    destruct (kind_of item) as [[k m]|] eqn:E; [|contradiction].
    destruct (p k) eqn:Ep; [|contradiction].
    destruct Hm as [<-|[]]. eauto.
  - intros [item [k [Hi [E Ep]]]]. exists item. rewrite E, Ep. simpl. auto.
Qed.

Lemma kind_of_task item msg_type msg v r :
  unpack2 item = Ok (msg_type, msg) ->
  attr_value msg_type = Ok v ->
  v <> MessageType_value WORKFLOW_INFO ->
  subscript msg "task_time_returned" = Ok r ->
  kind_of item = Some (if is_not_None r then TaskReturned else TaskNew, msg).
Proof.
  intros H1 H2 H3 H4. unfold kind_of. rewrite H1, H2.
  apply Z.eqb_neq in H3. rewrite H3, H4.
  destruct (is_not_None r); reflexivity.
Qed.

Lemma kind_of_inv item k msg :
  kind_of item = Some (k, msg) ->
  exists msg_type v,
    unpack2 item = Ok (msg_type, msg) /\ attr_value msg_type = Ok v
    /\ match k with
       | WorkflowStart =>
           v = MessageType_value WORKFLOW_INFO
           /\ contains_str "python_version" msg = Ok true
       | WorkflowEnd =>
           v = MessageType_value WORKFLOW_INFO
           /\ contains_str "python_version" msg = Ok false
       | TaskNew =>
           v <> MessageType_value WORKFLOW_INFO
           /\ subscript msg "task_time_returned" = Ok VNone
       | TaskReturned =>
           v <> MessageType_value WORKFLOW_INFO
           /\ exists r, subscript msg "task_time_returned" = Ok r /\ r <> VNone
       end.
Proof.
  unfold kind_of.
  destruct (unpack2 item) as [[msg_type m]|] eqn:Eu; [|discriminate].
  destruct (attr_value msg_type) as [v|] eqn:Ea; [|discriminate].
  destruct (v =? MessageType_value WORKFLOW_INFO)%Z eqn:Ev.
  - apply Z.eqb_eq in Ev.
    destruct (contains_str "python_version" m) as [[|]|] eqn:Ec;
      try discriminate; intros H; inversion H; subst;
      exists msg_type, (MessageType_value WORKFLOW_INFO); auto.
  - apply Z.eqb_neq in Ev.
    destruct (subscript m "task_time_returned") as [r|] eqn:Er; [|discriminate].
    destruct (is_not_None r) eqn:En; intros H; inversion H; subst;
      exists msg_type, v; repeat split; try assumption.
    + exists r. split; [assumption|]. intros ->. discriminate.
    + destruct r; try discriminate. assumption.
Qed.

(** A message of the insert group has no return time and a message of the
    update group has one. *)
Lemma select_new_returned_disjoint batch msg :
  ~ (In msg (select is_new batch) /\ In msg (select is_returned batch)).
Proof.
  rewrite !in_select.
  intros [[item1 [k1 [_ [E1 P1]]]] [item2 [k2 [_ [E2 P2]]]]].
  destruct k1; try discriminate. destruct k2; try discriminate.
  apply kind_of_inv in E1. apply kind_of_inv in E2.
  destruct E1 as [? [? [_ [_ [_ H1]]]]].
  destruct E2 as [? [? [_ [_ [_ [r [H2 Hr]]]]]]].
  congruence.
Qed.

Lemma classify_ok batch sess upd ins all sess' :
  classify batch [] [] [] sess = (Ok (upd, ins, all), sess') ->
  forallb loop_accepts batch = true
  /\ upd = select is_returned batch
  /\ ins = select is_new batch
  /\ all = select is_task batch.
Proof.
  intros H. destruct (classify_spec batch [] [] [] sess) as [calls [_ Hr]].
  rewrite H in Hr. simpl in Hr.
  destruct (forallb loop_accepts batch).
  - destruct Hr as [Hr _]. inversion Hr. auto.
  - destruct Hr as [[e He] _]. discriminate.
Qed.

(** C4.  When the classification of a batch completes, every task message
    of the batch whose [task_time_returned] is [None] is in the insert
    group and not in the update group, every task message whose
    [task_time_returned] is not [None] is in the update group and not in
    the insert group, and no message is in both groups. *)
Theorem insert_update_exclusivity (batch : list pyval) (sess sess' : list db_call)
        (update_messages insert_messages all_messages : list pyval) :
  classify batch [] [] [] sess
  = (Ok (update_messages, insert_messages, all_messages), sess') ->
  (forall item msg_type msg v,
      In item batch ->
      unpack2 item = Ok (msg_type, msg) ->
      attr_value msg_type = Ok v ->
      v <> MessageType_value WORKFLOW_INFO ->
      (subscript msg "task_time_returned" = Ok VNone ->
       In msg insert_messages /\ ~ In msg update_messages)
      /\ (forall r, subscript msg "task_time_returned" = Ok r -> r <> VNone ->
                    In msg update_messages /\ ~ In msg insert_messages))
  /\ (forall msg, ~ (In msg insert_messages /\ In msg update_messages)).
Proof.
  intros H. apply classify_ok in H. destruct H as [_ [-> [-> _]]].
  split; [|intros msg; apply select_new_returned_disjoint].
  intros item msg_type msg v Hi H1 H2 H3. split.
  - intros H4. pose proof (kind_of_task item _ _ _ _ H1 H2 H3 H4) as E. simpl in E.
    assert (Hin : In msg (select is_new batch))
      by (apply in_select; exists item, TaskNew; auto).
    split; [exact Hin|].
    intros Hu. apply (select_new_returned_disjoint batch msg). auto.
  - intros r H4 Hr. pose proof (kind_of_task item _ _ _ _ H1 H2 H3 H4) as E.
    assert (En : is_not_None r = true) by (destruct r; [contradiction | reflexivity ..]).
    rewrite En in E.
    assert (Hin : In msg (select is_returned batch))
      by (apply in_select; exists item, TaskReturned; auto).
    split; [exact Hin|].
    intros Hu. apply (select_new_returned_disjoint batch msg). auto.
Qed.

Lemma insert_update_exclusivity_witness :
  classify [tagged TASK_INFO new_task; tagged TASK_INFO returned_task] [] [] [] []
  = (Ok ([returned_task], [new_task], [new_task; returned_task]), [])
  /\ forall msg, ~ (In msg [new_task] /\ In msg [returned_task]).
Proof.
  assert (H : classify [tagged TASK_INFO new_task; tagged TASK_INFO returned_task]
                       [] [] [] []
              = (Ok ([returned_task], [new_task], [new_task; returned_task]), []))
    by reflexivity.
  refine (conj H _).
  exact (proj2 (insert_update_exclusivity _ _ _ _ _ _ H)).
Defined.

(** ** Which calls belong to which group *)

Lemma in_group_call_of g g' messages :
  in_group g (call_of g' messages) = group_eqb g g'.
Proof. destruct g, g'; reflexivity. Qed.

Lemma calls_of_app g a b : calls_of g (a ++ b) = calls_of g a ++ calls_of g b.
Proof. apply filter_app. Qed.

Lemma routed_app g a b : routed g (a ++ b) = routed g a ++ routed g b.
Proof. unfold routed. rewrite calls_of_app. apply flat_map_app. Qed.

Lemma calls_of_single g g' messages :
  calls_of g [call_of g' messages]
  = if group_eqb g g' then [call_of g' messages] else [].
Proof. unfold calls_of. simpl. rewrite in_group_call_of. reflexivity. Qed.

Lemma snd_call_of g messages : snd (call_of g messages) = messages.
Proof. destruct g; reflexivity. Qed.

Lemma routed_single g g' messages :
  routed g [call_of g' messages] = if group_eqb g g' then messages else [].
Proof.
  unfold routed. rewrite calls_of_single.
  destruct (group_eqb g g'); simpl; [|reflexivity].
  rewrite snd_call_of. apply app_nil_r.
Qed.

Lemma select_ext p q batch :
  (forall k, p k = q k) -> select p batch = select q batch.
Proof.
  intros H. unfold select. apply flat_map_ext. intros item.
  destruct (kind_of item) as [[k msg]|]; [rewrite H|]; reflexivity.
Qed.

Lemma calls_of_workflow_calls g batch :
  per_message g = false -> calls_of g (workflow_calls batch) = [].
Proof.
  intros Hg. induction batch as [|item batch IH]; [reflexivity|].
  rewrite workflow_calls_cons, calls_of_app, IH, app_nil_r.
  destruct (kind_of item) as [[[] msg]|]; try reflexivity;
    rewrite calls_of_single; destruct g; try reflexivity; discriminate.
Qed.

Lemma routed_workflow_calls g batch :
  routed g (workflow_calls batch)
  = if per_message g then select (goes_to g) batch else [].
Proof.
  destruct (per_message g) eqn:Hg.
  - induction batch as [|item batch IH]; [reflexivity|].
    rewrite workflow_calls_cons, routed_app, select_cons, IH.
    destruct (kind_of item) as [[[] msg]|]; try reflexivity;
      try rewrite routed_single; destruct g; try reflexivity; discriminate.
  - unfold routed. rewrite calls_of_workflow_calls by assumption. reflexivity.
Qed.

Lemma select_none p batch : (forall k, p k = false) -> select p batch = [].
Proof.
  intros H. induction batch as [|item batch IH]; [reflexivity|].
  rewrite select_cons, IH.
  destruct (kind_of item) as [[k msg]|]; [rewrite H|]; reflexivity.
Qed.

Lemma routed_guarded g g' (l : list pyval) :
  routed g (if nonempty l then [call_of g' l] else [])
  = if group_eqb g g' then l else [].
Proof.
  destruct l; simpl nonempty.
  - destruct (group_eqb g g'); reflexivity.
  - apply routed_single.
Qed.

Lemma routed_task_calls g batch :
  routed g (task_calls batch)
  = if per_message g then [] else select (goes_to g) batch.
Proof.
  unfold task_calls. rewrite !routed_app.
  rewrite !routed_guarded, !routed_single.
  destruct g; simpl; rewrite ?app_nil_r; try reflexivity;
    try (apply select_ext; intros []; reflexivity).
  symmetry. apply select_none. intros []; reflexivity.
Qed.

(** What a completed first half of the loop body passes to each group is
    the messages of the batch that belong to it, in the order of the
    batch. *)
Lemma routed_priority_calls g batch :
  routed g (workflow_calls batch ++ task_calls batch) = select (goes_to g) batch.
Proof.
  rewrite routed_app, routed_workflow_calls, routed_task_calls.
  destruct (per_message g); [apply app_nil_r | reflexivity].
Qed.

(** The calls after the counters update hold no second one. *)
Lemma calls_of_counters_tail batch :
  calls_of WorkflowCounterUpdates
    ((if nonempty (select is_new batch)
      then [call_of TaskInserts (select is_new batch)] else [])
     ++ (if nonempty (select is_returned batch)
         then [call_of TaskUpdates (select is_returned batch)] else [])
     ++ [call_of StatusInserts (select is_task batch)]) = [].
Proof.
  rewrite !calls_of_app.
  destruct (nonempty (select is_new batch)),
    (nonempty (select is_returned batch)); reflexivity.
Qed.

Lemma makes_calls_prefix m ok sigs sess :
  makes_calls m ok sigs ->
  exists calls more,
    snd (m sess) = sess ++ calls /\ sigs = map call_sig calls ++ more.
Proof.
  intros H. specialize (H sess). destruct ok.
  - destruct H as [calls [E S]]. exists calls, []. rewrite E, app_nil_r. auto.
  - destruct H as [e [calls [more [E [S _]]]]].
    exists calls, more. rewrite E. auto.
Qed.

Lemma calls_of_prefix g (a b : list signature) :
  calls_of g (a ++ b) = [] -> calls_of g a = [].
Proof.
  rewrite calls_of_app. intros H. apply app_eq_nil in H. tauto.
Qed.

(** ** The Workflow counters update *)

(** C5 as stated fails: in a cycle whose only task message has no return
    time the counters update is passed no message at all, although the
    cycle has a task message. *)
Lemma workflow_counters_counterexample :
  map call_sig (snd (route_priority [tagged TASK_INFO new_task] []))
  = [call_of WorkflowCounterUpdates [];
     call_of TaskInserts [new_task];
     call_of StatusInserts [new_task]]
  /\ select is_task [tagged TASK_INFO new_task] = [new_task]
  /\ routed WorkflowCounterUpdates
       (map call_sig (snd (route_priority [tagged TASK_INFO new_task] [])))
     <> select is_task [tagged TASK_INFO new_task].
Proof.
  split; [reflexivity|]. split; [reflexivity|].
  vm_compute. discriminate.
Qed.

Lemma in_select_returned msg batch :
  In msg (select is_returned batch) <->
  exists item msg_type v r,
    In item batch /\ unpack2 item = Ok (msg_type, msg)
    /\ attr_value msg_type = Ok v /\ v <> MessageType_value WORKFLOW_INFO
    /\ subscript msg "task_time_returned" = Ok r /\ r <> VNone.
Proof.
  rewrite in_select. split.
  - intros [item [k [Hi [E Hk]]]]. destruct k; try discriminate.
    apply kind_of_inv in E.
    destruct E as [msg_type [v [H1 [H2 [H3 [r [H4 H5]]]]]]].
    exists item, msg_type, v, r. auto 6.
  - intros [item [msg_type [v [r [Hi [H1 [H2 [H3 [H4 H5]]]]]]]]].
    exists item, TaskReturned. split; [assumption|]. split; [|reflexivity].
    rewrite (kind_of_task item _ _ _ _ H1 H2 H3 H4).
    destruct r; [contradiction | reflexivity ..].
Qed.

(** C5, amended.  In every cycle whose [for] loop completes, one update of
    the Workflow table with the columns [run_id], [tasks_failed_count] and
    [tasks_completed_count] is made, right after the per-message Workflow
    calls and whether or not the cycle has task messages; the messages
    passed to it are the task messages of the cycle whose
    [task_time_returned] is not [None], the update group, each of which has
    to have the three columns. *)
Theorem workflow_counters_update (batch : list pyval) (sess : list db_call) :
  forallb loop_accepts batch = true ->
  forallb (has_fields workflow_counter_columns) (select is_returned batch) = true ->
  (exists before c after,
      snd (route_priority batch sess) = sess ++ before ++ c :: after
      /\ map call_sig before = workflow_calls batch
      /\ call_sig c = (BulkUpdate, WORKFLOW,
                  Some ["run_id"; "tasks_failed_count"; "tasks_completed_count"],
                  select is_returned batch)
      /\ calls_of WorkflowCounterUpdates (map call_sig (before ++ after)) = [])
  /\ (forall msg,
         In msg (select is_returned batch) <->
         exists item msg_type v r,
           In item batch /\ unpack2 item = Ok (msg_type, msg)
           /\ attr_value msg_type = Ok v /\ v <> MessageType_value WORKFLOW_INFO
           /\ subscript msg "task_time_returned" = Ok r /\ r <> VNone)
  /\ (select is_task batch = [] -> select is_returned batch = []).
Proof.
  intros H1 H2. split; [|split].
  - unfold route_priority. rewrite bind_eq.
    destruct (classify_spec batch [] [] [] sess) as [calls0 [Hs Hr]].
    rewrite H1 in Hr.
    destruct (classify batch [] [] [] sess) as [r sess0].
    simpl in Hs, Hr. destruct Hr as [-> Hw]. subst sess0.
    rewrite bind_eq.
    destruct (update_spec WORKFLOW Database.Workflow workflow_counter_columns
                (select is_returned batch) (sess ++ calls0) eq_refl)
      as [[_ [c [Hc Hsig]]]|[Hf _]]; [|congruence].
    rewrite Hc. cbv beta iota.
    destruct (makes_calls_prefix _ _ _ ((sess ++ calls0) ++ [c])
                (after_counters_spec batch)) as [calls2 [more [E2 S2]]].
    exists calls0, c, calls2. rewrite E2, <- !app_assoc.
    split; [reflexivity|]. split; [assumption|]. split; [assumption|].
    rewrite map_app, calls_of_app, Hw.
    rewrite calls_of_workflow_calls by reflexivity.
    apply (calls_of_prefix WorkflowCounterUpdates (map call_sig calls2) more).
    rewrite <- S2. apply calls_of_counters_tail.
  - intros msg. apply in_select_returned.
  - intros Ht. destruct (select is_returned batch) as [|msg l] eqn:E; [reflexivity|].
    assert (Hin : In msg (select is_returned batch)) by (rewrite E; left; reflexivity).
    apply in_select in Hin. destruct Hin as [item [k [Hi [Ek Hk]]]].
    assert (Hin' : In msg (select is_task batch)).
    { apply in_select. exists item, k. destruct k; try discriminate. auto. }
    rewrite Ht in Hin'. contradiction.
Qed.

Lemma workflow_counters_update_witness :
  forallb loop_accepts [tagged TASK_INFO new_task] = true
  /\ forallb (has_fields workflow_counter_columns)
       (select is_returned [tagged TASK_INFO new_task]) = true
  /\ exists before c after,
      snd (route_priority [tagged TASK_INFO new_task] []) = [] ++ before ++ c :: after
      /\ map call_sig before = workflow_calls [tagged TASK_INFO new_task]
      /\ call_sig c = (BulkUpdate, WORKFLOW,
                  Some ["run_id"; "tasks_failed_count"; "tasks_completed_count"],
                  select is_returned [tagged TASK_INFO new_task])
      /\ calls_of WorkflowCounterUpdates (map call_sig (before ++ after)) = [].
Proof.
  assert (H1 : forallb loop_accepts [tagged TASK_INFO new_task] = true)
    by reflexivity.
  assert (H2 : forallb (has_fields workflow_counter_columns)
                 (select is_returned [tagged TASK_INFO new_task]) = true)
    by reflexivity.
  refine (conj H1 (conj H2 _)).
  exact (proj1 (workflow_counters_update [tagged TASK_INFO new_task] [] H1 H2)).
Defined.

(** ** The two halves of the loop body *)

Lemma start_priority clock s :
  main_thread s = MPriority ->
  let r := _get_messages_in_batch clock (pending_priority_queue s)
             (batching_interval s) (batching_threshold s) (ticks s) in
  start clock s
  = after_priority (rest_of r) (snd (route_priority (batch_of r) (db s))) (tick_of r)
      match fst (route_priority (batch_of r) (db s)) with
      | Ok _ => MResource
      | Raise e => MCrashed e
      end s.
Proof.
  intros H. unfold start. rewrite H.
  destruct (_get_messages_in_batch _ _ _ _ _) as [[messages rest] tick].
  unfold batch_of, rest_of, tick_of. cbn [fst snd].
  destruct (route_priority messages (db s)) as [[|] ?]; reflexivity.
Qed.

Lemma start_resource clock s :
  main_thread s = MResource ->
  let r := _get_messages_in_batch clock (pending_resource_queue s)
             (batching_interval s) (batching_threshold s) (ticks s) in
  start clock s
  = after_resource (rest_of r) (snd (route_resource (batch_of r) (db s))) (tick_of r)
      match fst (route_resource (batch_of r) (db s)) with
      | Ok _ => MCheck
      | Raise e => MCrashed e
      end s.
Proof.
  intros H. unfold start. rewrite H.
  destruct (_get_messages_in_batch _ _ _ _ _) as [[messages rest] tick].
  unfold batch_of, rest_of, tick_of. cbn [fst snd].
  destruct (route_resource messages (db s)) as [[|] ?]; reflexivity.
Qed.

Lemma start_dead clock s e : main_thread s = MCrashed e -> start clock s = s.
Proof. intros H. unfold start. rewrite H. reflexivity. Qed.

(** C6.  The calls of one cycle are made in this order: the per-message
    Workflow calls of the [for] loop, the Workflow counters update, the
    Task insert, the Task update, the Status insert and, from the resource
    batch, the Resource insert.  A cycle that raises has made the calls of
    this sequence up to some point; a cycle that comes back to the test of
    the loop condition has made them all.  The forwarders may run between
    the two halves. *)
Theorem ordering_contract (clock : nat -> Z) (s s1 : state) :
  main_thread s = MPriority ->
  main_thread s1 = main_thread (start clock s) ->
  db s1 = db (start clock s) ->
  let pb := batch_of (_get_messages_in_batch clock (pending_priority_queue s)
                        (batching_interval s) (batching_threshold s) (ticks s)) in
  let rb := batch_of (_get_messages_in_batch clock (pending_resource_queue s1)
                        (batching_interval s1) (batching_threshold s1) (ticks s1)) in
  exists calls more,
    db (start clock s1) = db s ++ calls
    /\ workflow_calls pb
       ++ [call_of WorkflowCounterUpdates (select is_returned pb)]
       ++ (if nonempty (select is_new pb)
           then [call_of TaskInserts (select is_new pb)] else [])
       ++ (if nonempty (select is_returned pb)
           then [call_of TaskUpdates (select is_returned pb)] else [])
       ++ [call_of StatusInserts (select is_task pb)]
       ++ [call_of ResourceInserts rb]
       = map call_sig calls ++ more
    /\ (main_thread (start clock s1) = MCheck -> more = []).
Proof.
  intros Hm Hm1 Hdb pb rb.
  rewrite (start_priority clock s Hm) in Hm1, Hdb. simpl in Hm1, Hdb.
  fold pb in Hm1, Hdb.
  destruct (route_priority_spec pb (db s)) as [calls [Hs Hr]].
  rewrite Hs in Hdb.
  assert (Hseq : forall l : list signature,
             workflow_calls pb
             ++ [call_of WorkflowCounterUpdates (select is_returned pb)]
             ++ (if nonempty (select is_new pb)
                 then [call_of TaskInserts (select is_new pb)] else [])
             ++ (if nonempty (select is_returned pb)
                 then [call_of TaskUpdates (select is_returned pb)] else [])
             ++ [call_of StatusInserts (select is_task pb)] ++ l
             = (workflow_calls pb ++ task_calls pb) ++ l).
  { intros l. unfold task_calls. rewrite <- !app_assoc. reflexivity. }
  rewrite Hseq.
  destruct (forallb well_formed pb).
  - destruct Hr as [Hok Hsig]. rewrite Hok in Hm1.
    rewrite (start_resource clock s1 Hm1). simpl. fold rb.
    unfold route_resource.
    destruct (insert_spec RESOURCE Database.Resource rb (db s1) eq_refl)
      as [[_ [c [Hc Hcs]]]|[_ [e He]]].
    + rewrite Hc. simpl. exists (calls ++ [c]), [].
      rewrite Hdb, <- app_assoc, map_app, Hsig, app_nil_r. simpl. rewrite Hcs.
      auto.
    + rewrite He. simpl. exists calls, [call_of ResourceInserts rb].
      rewrite Hdb, Hsig. split; [reflexivity|]. split; [reflexivity|].
      discriminate.
  - destruct Hr as [[e He] [more [Hne Hsig]]]. rewrite He in Hm1.
    rewrite (start_dead clock s1 e Hm1).
    exists calls, (more ++ [call_of ResourceInserts rb]).
    rewrite Hdb, Hsig, <- app_assoc. split; [reflexivity|]. split; [reflexivity|].
    rewrite Hm1. discriminate.
Qed.

Lemma ordering_contract_witness :
  main_thread full_cycle = MPriority
  /\ map call_sig (db (start frozen_clock (start frozen_clock full_cycle)))
     = [call_of WorkflowInserts [workflow_start];
        call_of WorkflowEndUpdates [workflow_end];
        call_of WorkflowCounterUpdates [returned_task];
        call_of TaskInserts [new_task];
        call_of TaskUpdates [returned_task];
        call_of StatusInserts [new_task; returned_task];
        call_of ResourceInserts [sample_message]]
  /\ exists calls more,
      db (start frozen_clock (start frozen_clock full_cycle))
      = db full_cycle ++ calls
      /\ [call_of WorkflowInserts [workflow_start];
          call_of WorkflowEndUpdates [workflow_end];
          call_of WorkflowCounterUpdates [returned_task];
          call_of TaskInserts [new_task];
          call_of TaskUpdates [returned_task];
          call_of StatusInserts [new_task; returned_task];
          call_of ResourceInserts [sample_message]]
         = map call_sig calls ++ more
      /\ (main_thread (start frozen_clock (start frozen_clock full_cycle)) = MCheck
          -> more = []).
Proof.
  assert (H : main_thread full_cycle = MPriority) by reflexivity.
  refine (conj H (conj eq_refl _)).
  exact (ordering_contract frozen_clock full_cycle (start frozen_clock full_cycle)
           H eq_refl eq_refl).
Defined.

(** ** A message that lacks a field *)

Lemma lacks_field_not_well_formed item :
  lacks_field item = true -> well_formed item = false.
Proof.
  unfold lacks_field, well_formed.
  destruct (unpack2 item) as [[[] []]|]; try discriminate.
  destruct (kind_of item) as [[k msg]|]; [|reflexivity].
  apply negb_true_iff.
Qed.

Lemma lacks_field_batch batch :
  existsb lacks_field batch = true -> forallb well_formed batch = false.
Proof.
  induction batch as [|item batch IH]; simpl; [discriminate|].
  intros H. apply orb_true_iff in H. destruct H as [H|H].
  - rewrite (lacks_field_not_well_formed item H). reflexivity.
  - rewrite (IH H). apply andb_false_r.
Qed.

(** No Status insert is among the calls of a cycle that stopped short of
    its last call. *)
Lemma no_status_insert batch (calls more : list signature) :
  more <> [] ->
  workflow_calls batch ++ task_calls batch = calls ++ more ->
  calls_of StatusInserts calls = [].
Proof.
  intros Hne H.
  destruct (exists_last Hne) as [more' [x ->]].
  unfold task_calls in H. rewrite !app_assoc in H.
  apply app_inj_tail in H. destruct H as [H _].
  apply (calls_of_prefix StatusInserts calls more').
  rewrite <- H, !calls_of_app.
  rewrite calls_of_workflow_calls by reflexivity.
  destruct (nonempty (select is_new batch)),
    (nonempty (select is_returned batch)); reflexivity.
Qed.



(** ** Where the messages are, whatever the schedule *)

Lemma select_app p a b : select p (a ++ b) = select p a ++ select p b.
Proof. apply flat_map_app. Qed.

Lemma kind_of_stop : forall x, eq_str x STOP = true -> kind_of x = None.
Proof.
  intros x H. destruct x; try discriminate.
  simpl in H. apply String.eqb_eq in H. subst. reflexivity.
Qed.

Lemma well_formed_not_stop x : well_formed x = true -> eq_str x STOP = false.
Proof.
  intros H. destruct (eq_str x STOP) eqn:E; [|reflexivity].
  unfold well_formed in H. rewrite (kind_of_stop x E) in H. discriminate.
Qed.

Lemma forward_priority_message s x a :
  well_formed x = true ->
  forward priority (item_of (x, a)) s
  = set_thread_pc priority FPoll (put_pending_priority x s).
Proof.
  intros H. unfold forward, item_of. simpl fst; simpl snd.
  rewrite unpack2_pair, (well_formed_not_stop x H). reflexivity.
Qed.

Lemma forward_priority_stop s addr :
  forward priority (stop_item addr) s = set_thread_pc priority FPoll (close s).
Proof. reflexivity. Qed.

Lemma forward_resource_message s x a :
  well_formed_resource x = true ->
  forward resource (item_of (x, a)) s
  = set_thread_pc resource FPoll (put_pending_resource (resource_message x) s).
Proof.
  intros H. unfold forward, item_of, resource_message. simpl fst; simpl snd.
  rewrite unpack2_pair. unfold well_formed_resource in H.
  destruct (subscript_last x); [reflexivity | discriminate].
Qed.

Section Conservation.

Variable clock : nat -> Z.
Variable P R : list (pyval * pyval).
Variable addr : pyval.
Hypothesis P_well_formed : forallb well_formed (map fst P) = true.

Lemma priority_payload_well_formed x :
  In x (map fst P) -> well_formed x = true.
Proof. intros H. apply (proj1 (forallb_forall _ _) P_well_formed x H). Qed.

Lemma priority_side_forwarder s :
  priority_side P addr s ->
  priority_side P addr (_migrate_logs_to_internal priority s).
Proof.
  intros (done & rem & Hfw & Hk & Hcons & Hrout).
  unfold to_forward in Hfw. unfold _migrate_logs_to_internal.
  destruct (thread_pc priority s) eqn:Epc; simpl in Epc.
  - simpl logs_queue in *.
    destruct (priority_queue s) as [|item rest] eqn:Eq.
    + destruct (_kill_event s) eqn:Ek.
      * exists done, rem. unfold to_forward. simpl. rewrite Eq, Ek. auto 8.
      * exists done, rem. unfold to_forward. simpl. rewrite Epc, Eq, Ek. auto 8.
    + exists done, rem. unfold to_forward. simpl.
      split; [exact Hfw|]. split; [exact Hk|]. split; [exact Hcons|]. exact Hrout.
  - simpl logs_queue in Hfw. destruct rem as [|[x a] rem].
    + simpl in Hfw. destruct (_kill_event s) eqn:Ek; [discriminate|].
      inversion Hfw as [[Hi Hq]]. rewrite forward_priority_stop.
      exists done, []. unfold to_forward. simpl. rewrite Hq. auto 8.
    + destruct (_kill_event s) eqn:Ek; [specialize (Hk eq_refl); discriminate|].
      simpl in Hfw. inversion Hfw as [[Hi Hq]].
      assert (Hx : well_formed x = true).
      { apply priority_payload_well_formed. rewrite Hcons.
        apply in_or_app. right. apply in_or_app. right. left. reflexivity. }
      rewrite (forward_priority_message s x a Hx).
      exists done, rem. unfold to_forward. simpl. rewrite Ek, Hq.
      split; [reflexivity|]. split; [discriminate|]. split; [|assumption].
      rewrite Hcons. simpl. rewrite <- !app_assoc. reflexivity.
  - exists done, rem. unfold to_forward. simpl. rewrite Epc. auto 8.
  - exists done, rem. unfold to_forward. simpl. rewrite Epc. auto 8.
Qed.

Lemma priority_side_other_forwarder s :
  priority_side P addr s ->
  priority_side P addr (_migrate_logs_to_internal resource s).
Proof.
  intros (done & rem & Hfw & Hk & Hcons & Hrout).
  exists done, rem.
  unfold _migrate_logs_to_internal, forward.
  destruct (thread_pc resource s) eqn:Epc; simpl logs_queue;
    [destruct (resource_queue s); [destruct (_kill_event s) eqn:Ek|]
    |destruct (unpack2 item) as [[x a]|]; [destruct (subscript_last x)|]
    | | ];
    unfold to_forward in *; simpl; rewrite ?Ek; auto 8.
Qed.

Lemma priority_side_coordinator s :
  priority_side P addr s -> priority_side P addr (start clock s).
Proof.
  intros (done & rem & Hfw & Hk & Hcons & Hrout).
  destruct (main_thread s) eqn:Em.
  - rewrite (start_from_check clock s Em). exists done, rem. auto 8.
  - rewrite (start_priority clock s Em). cbv zeta.
    set (r := _get_messages_in_batch clock (pending_priority_queue s)
                (batching_interval s) (batching_threshold s) (ticks s)).
    pose proof (get_batch_split clock (pending_priority_queue s)
                  (batching_interval s) (batching_threshold s) (ticks s)) as Hsplit.
    fold r in Hsplit.
    assert (Hwf : forallb well_formed (batch_of r) = true).
    { apply forallb_forall. intros x Hx. apply priority_payload_well_formed.
      rewrite Hcons, <- Hsplit.
      apply in_or_app. right. apply in_or_app. left.
      apply in_or_app. left. assumption. }
    destruct (route_priority_spec (batch_of r) (db s)) as [calls [Hs Hr]].
    rewrite Hwf in Hr. destruct Hr as [_ Hsig].
    exists (done ++ batch_of r), rem. unfold to_forward in *. simpl.
    split; [assumption|]. split; [assumption|]. split.
    + rewrite Hcons, <- Hsplit, <- !app_assoc. reflexivity.
    + intros g Hg. rewrite Hs, map_app, routed_app, Hsig, routed_priority_calls.
      rewrite (Hrout g Hg), select_app. reflexivity.
  - rewrite (start_resource clock s Em). cbv zeta.
    set (r := _get_messages_in_batch clock (pending_resource_queue s)
                (batching_interval s) (batching_threshold s) (ticks s)).
    exists done, rem. unfold to_forward in *. simpl.
    split; [assumption|]. split; [assumption|]. split; [assumption|].
    intros g Hg. unfold route_resource.
    destruct (insert_spec RESOURCE Database.Resource (batch_of r) (db s) eq_refl)
      as [[_ [c [Hc Hcs]]]|[_ [e He]]].
    + rewrite Hc. simpl. rewrite map_app, routed_app. simpl map. rewrite Hcs.
      change (BulkInsert, RESOURCE, @None (list string), batch_of r)
        with (call_of ResourceInserts (batch_of r)).
      rewrite (routed_single g ResourceInserts), Hg, app_nil_r. auto.
    + rewrite He. simpl. auto.
  - unfold start. rewrite Em. exists done, rem. auto 8.
  - unfold start. rewrite Em. exists done, rem. auto 8.
Qed.

Hypothesis R_well_formed : forallb well_formed_resource (map fst R) = true.

Lemma resource_message_has_fields x :
  well_formed_resource x = true ->
  has_fields Database.Resource (resource_message x) = true.
Proof.
  unfold well_formed_resource, resource_message.
  destruct (subscript_last x); [auto | discriminate].
Qed.

Lemma resource_side_forwarder s :
  resource_side R s -> resource_side R (_migrate_logs_to_internal resource s).
Proof.
  intros (done & rem & Hfw & Hwf & Hpend & Hcons & Hrout).
  unfold to_forward in Hfw. unfold _migrate_logs_to_internal.
  destruct (thread_pc resource s) eqn:Epc; simpl in Epc.
  - simpl logs_queue in *.
    destruct (resource_queue s) as [|item rest] eqn:Eq.
    + destruct (_kill_event s) eqn:Ek.
      * exists done, rem. unfold to_forward. simpl. rewrite Eq. auto 8.
      * exists done, rem. unfold to_forward. simpl. rewrite Epc, Eq. auto 8.
    + exists done, rem. unfold to_forward. simpl. auto 8.
  - simpl logs_queue in Hfw. destruct rem as [|[x a] rem]; [discriminate|].
    simpl in Hfw. inversion Hfw as [[Hi Hq]].
    simpl in Hwf. apply andb_true_iff in Hwf. destruct Hwf as [Hx Hwf].
    rewrite (forward_resource_message s x a Hx).
    exists done, rem. unfold to_forward. simpl.
    split; [assumption|]. split; [assumption|]. split.
    + rewrite forallb_app, Hpend. cbn [forallb andb].
      rewrite (resource_message_has_fields x Hx). reflexivity.
    + split; [|assumption]. rewrite Hcons. simpl. rewrite <- !app_assoc.
      reflexivity.
  - exists done, rem. unfold to_forward. simpl. rewrite Epc. auto 8.
  - exists done, rem. unfold to_forward. simpl. rewrite Epc. auto 8.
Qed.

Lemma resource_side_other_forwarder s :
  resource_side R s -> resource_side R (_migrate_logs_to_internal priority s).
Proof.
  intros (done & rem & Hfw & Hwf & Hpend & Hcons & Hrout).
  exists done, rem.
  unfold _migrate_logs_to_internal, forward.
  destruct (thread_pc priority s) eqn:Epc; simpl logs_queue;
    [destruct (priority_queue s); [destruct (_kill_event s) eqn:Ek|]
    |destruct (unpack2 item) as [[x a]|]; [destruct (eq_str x STOP)|]
    | | ];
    unfold to_forward in *; simpl; auto 8.
Qed.

Lemma calls_of_resource_priority_calls batch :
  calls_of ResourceInserts (workflow_calls batch ++ task_calls batch) = [].
Proof.
  rewrite calls_of_app, calls_of_workflow_calls by reflexivity.
  unfold task_calls. rewrite !calls_of_app.
  destruct (nonempty (select is_new batch)),
    (nonempty (select is_returned batch)); reflexivity.
Qed.

Lemma resource_side_coordinator s :
  resource_side R s -> resource_side R (start clock s).
Proof.
  intros (done & rem & Hfw & Hwf & Hpend & Hcons & Hrout).
  destruct (main_thread s) eqn:Em.
  - rewrite (start_from_check clock s Em). exists done, rem. auto 8.
  - rewrite (start_priority clock s Em). cbv zeta.
    set (r := _get_messages_in_batch clock (pending_priority_queue s)
                (batching_interval s) (batching_threshold s) (ticks s)).
    exists done, rem. unfold to_forward in *. simpl.
    split; [assumption|]. split; [assumption|]. split; [assumption|].
    split; [assumption|].
    destruct (route_priority_spec (batch_of r) (db s)) as [calls [Hs Hr]].
    assert (Hc : calls_of ResourceInserts (map call_sig calls) = []).
    { destruct (forallb well_formed (batch_of r)).
      - destruct Hr as [_ Hsig]. rewrite Hsig.
        apply calls_of_resource_priority_calls.
      - destruct Hr as [_ [more [_ Hsig]]].
        apply (calls_of_prefix ResourceInserts (map call_sig calls) more).
        rewrite <- Hsig. apply calls_of_resource_priority_calls. }
    rewrite Hs, map_app, routed_app. unfold routed at 2. rewrite Hc. simpl.
    rewrite app_nil_r. assumption.
  - rewrite (start_resource clock s Em). cbv zeta.
    set (r := _get_messages_in_batch clock (pending_resource_queue s)
                (batching_interval s) (batching_threshold s) (ticks s)).
    pose proof (get_batch_split clock (pending_resource_queue s)
                  (batching_interval s) (batching_threshold s) (ticks s)) as Hsplit.
    fold r in Hsplit.
    rewrite <- Hsplit, forallb_app in Hpend.
    apply andb_true_iff in Hpend. destruct Hpend as [Hb Hrest].
    exists (done ++ batch_of r), rem. unfold to_forward in *. simpl.
    split; [assumption|]. split; [assumption|]. split; [assumption|].
    split; [rewrite Hcons, <- Hsplit, <- !app_assoc; reflexivity|].
    unfold route_resource.
    destruct (insert_spec RESOURCE Database.Resource (batch_of r) (db s) eq_refl)
      as [[_ [c [Hc Hcs]]]|[Hf _]]; [|congruence].
    rewrite Hc. simpl. rewrite map_app, routed_app. simpl map. rewrite Hcs.
    change (BulkInsert, RESOURCE, @None (list string), batch_of r)
      with (call_of ResourceInserts (batch_of r)).
    rewrite (routed_single ResourceInserts ResourceInserts), Hrout. reflexivity.
  - unfold start. rewrite Em. exists done, rem. auto 8.
  - unfold start. rewrite Em. exists done, rem. auto 8.
Qed.

Lemma forwarder_db tag s : db (_migrate_logs_to_internal tag s) = db s.
Proof.
  unfold _migrate_logs_to_internal, forward.
  destruct (thread_pc tag s);
    [destruct (logs_queue tag s); [destruct (_kill_event s)|]
    |destruct (unpack2 item) as [[x a]|];
     [destruct tag; [destruct (eq_str x STOP)|destruct (subscript_last x)]|]
    | | ]; reflexivity.
Qed.

Lemma known_call_of g messages : known (call_of g messages) = true.
Proof. destruct g; reflexivity. Qed.

Lemma known_priority_calls batch :
  forallb known (workflow_calls batch ++ task_calls batch) = true.
Proof.
  rewrite forallb_app. apply andb_true_iff. split.
  - induction batch as [|item batch IH]; [reflexivity|].
    rewrite workflow_calls_cons, forallb_app, IH, andb_true_r.
    destruct (kind_of item) as [[[] msg]|]; reflexivity.
  - unfold task_calls.
    destruct (nonempty (select is_new batch)),
      (nonempty (select is_returned batch)); reflexivity.
Qed.

Lemma known_coordinator s :
  forallb known (map call_sig (db s)) = true ->
  forallb known (map call_sig (db (start clock s))) = true.
Proof.
  intros H. destruct (main_thread s) eqn:Em.
  - rewrite (start_from_check clock s Em). assumption.
  - rewrite (start_priority clock s Em). cbv zeta.
    set (r := _get_messages_in_batch clock (pending_priority_queue s)
                (batching_interval s) (batching_threshold s) (ticks s)).
    simpl db.
    destruct (route_priority_spec (batch_of r) (db s)) as [calls [Hs Hr]].
    rewrite Hs, map_app, forallb_app, H. simpl.
    pose proof (known_priority_calls (batch_of r)) as Hk.
    destruct (forallb well_formed (batch_of r)).
    + destruct Hr as [_ Hsig]. rewrite Hsig. assumption.
    + destruct Hr as [_ [more [_ Hsig]]]. rewrite Hsig, forallb_app in Hk.
      apply andb_true_iff in Hk. tauto.
  - rewrite (start_resource clock s Em). cbv zeta.
    set (r := _get_messages_in_batch clock (pending_resource_queue s)
                (batching_interval s) (batching_threshold s) (ticks s)).
    simpl db. unfold route_resource.
    destruct (insert_spec RESOURCE Database.Resource (batch_of r) (db s) eq_refl)
      as [[_ [c [Hc Hcs]]]|[_ [e He]]].
    + rewrite Hc. simpl. rewrite map_app, forallb_app, H. simpl. rewrite Hcs.
      reflexivity.
    + rewrite He. assumption.
  - unfold start. rewrite Em. assumption.
  - unfold start. rewrite Em. assumption.
Qed.

Lemma conserved_step t s :
  conserved P R addr s -> conserved P R addr (step clock t s).
Proof.
  intros (Hp & Hr & Hk). destruct t as [|[|]]; simpl.
  - split; [apply priority_side_coordinator; assumption|].
    split; [apply resource_side_coordinator; assumption|].
    apply known_coordinator; assumption.
  - split; [apply priority_side_forwarder; assumption|].
    split; [apply resource_side_other_forwarder; assumption|].
    rewrite forwarder_db. assumption.
  - split; [apply priority_side_other_forwarder; assumption|].
    split; [apply resource_side_forwarder; assumption|].
    rewrite forwarder_db. assumption.
Qed.

Lemma conserved_run schedule : forall s,
  conserved P R addr s -> conserved P R addr (run clock schedule s).
Proof.
  induction schedule as [|t schedule IH]; intros s H; [assumption|].
  simpl. apply IH. apply conserved_step. assumption.
Qed.

Lemma conserved_loaded interval threshold :
  conserved P R addr (loaded interval threshold P R addr).
Proof.
  split; [|split].
  - exists [], P. unfold to_forward. simpl.
    split; [reflexivity|]. split; [discriminate|]. split; reflexivity.
  - exists [], R. unfold to_forward. simpl.
    split; [reflexivity|]. split; [assumption|]. split; [reflexivity|].
    split; reflexivity.
  - reflexivity.
Qed.

End Conservation.

Lemma forwarder_main tag s :
  main_thread (_migrate_logs_to_internal tag s) = main_thread s.
Proof.
  unfold _migrate_logs_to_internal, forward.
  destruct (thread_pc tag s);
    [destruct (logs_queue tag s); [destruct (_kill_event s)|]
    |destruct (unpack2 item) as [[x a]|];
     [destruct tag; [destruct (eq_str x STOP)|destruct (subscript_last x)]|]
    | | ]; reflexivity.
Qed.

Lemma run_app clock a b s : run clock (a ++ b) s = run clock b (run clock a s).
Proof. unfold run. apply fold_left_app. Qed.

(** Past the loop nothing reaches the session any more. *)
Lemma stopped_stable clock schedule : forall s,
  main_thread s = MStopped ->
  main_thread (run clock schedule s) = MStopped
  /\ db (run clock schedule s) = db s.
Proof.
  induction schedule as [|t schedule IH]; intros s H; [auto|].
  simpl.
  assert (Ht : main_thread (step clock t s) = MStopped
               /\ db (step clock t s) = db s).
  { destruct t as [|tag]; simpl.
    - unfold start. rewrite H. auto.
    - split; [|apply forwarder_db]. rewrite forwarder_main. assumption. }
  destruct Ht as [Hm Hd]. destruct (IH _ Hm) as [IH1 IH2].
  rewrite IH1, IH2. auto.
Qed.

Lemma map_item_of_nil rem : map item_of rem = [] -> rem = [].
Proof. destruct rem; [reflexivity | discriminate]. Qed.

(** What the session holds when the loop is left. *)
Lemma conserved_at_exit P R addr s :
  conserved P R addr s ->
  start_condition s = false ->
  (forall g, group_eqb g ResourceInserts = false ->
             routed g (map call_sig (db s)) = select (goes_to g) (map fst P))
  /\ (in_flight resource s = false ->
      routed ResourceInserts (map call_sig (db s))
      = map resource_message (map fst R))
  /\ forallb known (map call_sig (db s)) = true.
Proof.
  intros (Hp & Hr & Hk) Hc.
  apply start_condition_false in Hc.
  destruct Hc as (Ekill & Epp & Epr & Epq & Erq).
  split; [|split; [|assumption]].
  - destruct Hp as (done & rem & Hfw & Hkill & Hcons & Hrout).
    rewrite (Hkill Ekill), Epp in Hcons. simpl in Hcons.
    rewrite app_nil_r in Hcons. rewrite Hcons. assumption.
  - intros Hfl.
    destruct Hr as (done & rem & Hfw & Hwf & Hpend & Hcons & Hrout).
    unfold to_forward, in_flight in *.
    destruct (thread_pc resource s); try discriminate;
      simpl in Hfw; rewrite Erq in Hfw; symmetry in Hfw;
      apply map_item_of_nil in Hfw; subst rem;
      rewrite Epr in Hcons; simpl in Hcons; rewrite app_nil_r in Hcons;
      rewrite Hcons; assumption.
Qed.

(** ** A schedule that reaches the end of the loop *)

Section Sequential.

Variable clock : nat -> Z.

Lemma forward_all_last tag n :
  forward_all tag (S n) = forward_all tag n ++ [Forwarder tag; Forwarder tag].
Proof.
  induction n as [|n IH]; [reflexivity|].
  change (forward_all tag (S (S n)))
    with (Forwarder tag :: Forwarder tag :: forward_all tag (S n)).
  rewrite IH at 1. reflexivity.
Qed.

Lemma forward_all_priority_messages rem : forall tail s,
  forallb well_formed (map fst rem) = true ->
  thread_pc priority s = FPoll ->
  priority_queue s = map item_of rem ++ tail ->
  run clock (forward_all priority (length rem)) s
  = with_priority (pending_priority_queue s ++ map fst rem) tail s.
Proof.
  induction rem as [|[x a] rem IH]; intros tail s Hwf Hpc Hq.
  - destruct s; simpl in *. subst. rewrite app_nil_r. reflexivity.
  - simpl in Hwf. apply andb_true_iff in Hwf. destruct Hwf as [Hx Hwf].
    simpl in Hq.
    change (run clock (forward_all priority (length ((x, a) :: rem))) s)
      with (run clock (forward_all priority (length rem))
              (_migrate_logs_to_internal priority
                 (_migrate_logs_to_internal priority s))).
    rewrite (forwarder_two_steps priority s _ _ Hpc Hq).
    rewrite (forward_priority_message _ x a Hx).
    rewrite (IH tail) by (try assumption; reflexivity).
    destruct s; simpl. rewrite <- app_assoc. reflexivity.
Qed.

Lemma forward_stop s addr :
  thread_pc priority s = FPoll ->
  priority_queue s = [stop_item addr] ->
  run clock [Forwarder priority; Forwarder priority] s
  = with_priority (pending_priority_queue s) [] (close s).
Proof.
  intros Hpc Hq.
  change (run clock [Forwarder priority; Forwarder priority] s)
    with (_migrate_logs_to_internal priority
            (_migrate_logs_to_internal priority s)).
  rewrite (forwarder_two_steps priority s _ _ Hpc Hq), forward_priority_stop.
  destruct s; reflexivity.
Qed.

Lemma forward_all_resource_messages rem : forall tail s,
  forallb well_formed_resource (map fst rem) = true ->
  thread_pc resource s = FPoll ->
  resource_queue s = map item_of rem ++ tail ->
  run clock (forward_all resource (length rem)) s
  = with_resource
      (pending_resource_queue s ++ map resource_message (map fst rem)) tail s.
Proof.
  induction rem as [|[x a] rem IH]; intros tail s Hwf Hpc Hq.
  - destruct s; simpl in *. subst. rewrite app_nil_r. reflexivity.
  - simpl in Hwf. apply andb_true_iff in Hwf. destruct Hwf as [Hx Hwf].
    simpl in Hq.
    change (run clock (forward_all resource (length ((x, a) :: rem))) s)
      with (run clock (forward_all resource (length rem))
              (_migrate_logs_to_internal resource
                 (_migrate_logs_to_internal resource s))).
    rewrite (forwarder_two_steps resource s _ _ Hpc Hq).
    rewrite (forward_resource_message _ x a Hx).
    rewrite (IH tail) by (try assumption; reflexivity).
    destruct s; simpl. rewrite <- app_assoc. reflexivity.
Qed.

(** The two forwarders, one after the other, leave the manager drained. *)
Lemma forwarders_drain interval threshold P R addr :
  forallb well_formed (map fst P) = true ->
  forallb well_formed_resource (map fst R) = true ->
  run clock (forward_all priority (S (length P)) ++ forward_all resource (length R))
      (loaded interval threshold P R addr)
  = drained P R.
Proof.
  intros HP HR.
  rewrite forward_all_last, !run_app.
  rewrite (forward_all_priority_messages P [stop_item addr])
    by (try assumption; reflexivity).
  rewrite (forward_stop _ addr) by reflexivity.
  rewrite (forward_all_resource_messages R [])
    by (try assumption; simpl; rewrite ?app_nil_r; reflexivity).
  reflexivity.
Qed.

(** Once [close] has run, each half of the loop body takes the whole of
    its pending buffer. *)
Lemma start_priority_inf s :
  main_thread s = MPriority ->
  batching_interval s = Inf -> batching_threshold s = Inf ->
  forallb well_formed (pending_priority_queue s) = true ->
  exists sess tick, start clock s = after_priority [] sess tick MResource s.
Proof.
  intros Hm Hi Ht Hwf. rewrite (start_priority clock s Hm). cbv zeta.
  rewrite Hi, Ht, get_batch_inf. unfold batch_of, rest_of, tick_of. cbn [fst snd].
  destruct (route_priority_spec (pending_priority_queue s) (db s))
    as [calls [_ Hr]].
  rewrite Hwf in Hr. destruct Hr as [Hok _]. rewrite Hok.
  eexists _, _. reflexivity.
Qed.

Lemma start_resource_inf s :
  main_thread s = MResource ->
  batching_interval s = Inf -> batching_threshold s = Inf ->
  forallb (has_fields Database.Resource) (pending_resource_queue s) = true ->
  exists sess tick, start clock s = after_resource [] sess tick MCheck s.
Proof.
  intros Hm Hi Ht Hwf. rewrite (start_resource clock s Hm). cbv zeta.
  rewrite Hi, Ht, get_batch_inf. unfold batch_of, rest_of, tick_of. cbn [fst snd].
  unfold route_resource.
  destruct (insert_spec RESOURCE Database.Resource (pending_resource_queue s)
              (db s) eq_refl) as [[_ [c [Hc _]]]|[Hf _]]; [|congruence].
  rewrite Hc. eexists _, _. reflexivity.
Qed.

Lemma resource_messages_have_fields (R : list (pyval * pyval)) :
  forallb well_formed_resource (map fst R) = true ->
  forallb (has_fields Database.Resource) (map resource_message (map fst R)) = true.
Proof.
  induction R as [|[x a] R IH]; simpl; [reflexivity|].
  intros H. apply andb_true_iff in H. destruct H as [Hx H].
  change (has_fields Database.Resource (resource_message x)
          && forallb (has_fields Database.Resource)
               (map resource_message (map fst R)) = true).
  rewrite (resource_message_has_fields x Hx), (IH H). reflexivity.
Qed.

(** From the drained manager the coordinator is at the end of its loop at
    once, when there was no message at all, or after one pass. *)
Lemma drained_exit P R :
  forallb well_formed (map fst P) = true ->
  forallb well_formed_resource (map fst R) = true ->
  exists k,
    (k = 0 \/ k = 3)
    /\ main_thread (run clock (repeat Coordinator k) (drained P R)) = MCheck
    /\ start_condition (run clock (repeat Coordinator k) (drained P R)) = false
    /\ in_flight resource (run clock (repeat Coordinator k) (drained P R)) = false.
Proof.
  intros HP HR.
  destruct (start_condition (drained P R)) eqn:Ec.
  - exists 3. split; [auto|].
    change (run clock (repeat Coordinator 3) (drained P R))
      with (start clock (start clock (start clock (drained P R)))).
    rewrite (start_from_check clock (drained P R) eq_refl), Ec.
    destruct (start_priority_inf (set_main_thread MPriority (drained P R))
                eq_refl eq_refl eq_refl HP) as [sess1 [tick1 E1]].
    rewrite E1.
    destruct (start_resource_inf
                (after_priority [] sess1 tick1 MResource
                   (set_main_thread MPriority (drained P R)))
                eq_refl eq_refl eq_refl (resource_messages_have_fields R HR))
      as [sess2 [tick2 E2]].
    rewrite E2. repeat split.
  - exists 0. split; [auto|]. simpl. auto.
Qed.

End Sequential.

(** A run that has left the loop left it at a test of the loop condition
    that found the kill event set and the four queues empty. *)
Lemma stopped_run_decomposes clock schedule : forall s0,
  main_thread s0 <> MStopped ->
  main_thread (run clock schedule s0) = MStopped ->
  exists before after,
    schedule = before ++ Coordinator :: after
    /\ main_thread (run clock before s0) = MCheck
    /\ start_condition (run clock before s0) = false.
Proof.
  induction schedule as [|t schedule IH] using rev_ind; intros s0 H0 Hs.
  - simpl in Hs. contradiction.
  - rewrite run_app in Hs. simpl in Hs.
    destruct (main_thread (run clock schedule s0)) eqn:Em.
    + destruct t as [|tag]; simpl in Hs.
      * rewrite (start_from_check clock _ Em) in Hs.
        destruct (start_condition (run clock schedule s0)) eqn:Ec;
          [discriminate|].
        exists schedule, []. auto.
      * rewrite forwarder_main, Em in Hs. discriminate.
    + destruct t as [|tag]; simpl in Hs.
      * exfalso. apply (start_not_stopping clock (run clock schedule s0));
          try assumption; rewrite Em; discriminate.
      * rewrite forwarder_main, Em in Hs. discriminate.
    + destruct t as [|tag]; simpl in Hs.
      * exfalso. apply (start_not_stopping clock (run clock schedule s0));
          try assumption; rewrite Em; discriminate.
      * rewrite forwarder_main, Em in Hs. discriminate.
    + destruct (IH s0 H0 Em) as (before & after & -> & Hm & Hc).
      exists before, (after ++ [t]). rewrite <- app_assoc. auto.
    + destruct t as [|tag]; simpl in Hs.
      * unfold start in Hs. rewrite Em in Hs. congruence.
      * rewrite forwarder_main, Em in Hs. discriminate.
Qed.

(** ** Drain completeness *)




(** Why the proviso on the resource forwarder: a sample it holds while the
    loop condition is tested reaches the pending buffer after the loop has
    ended and no call is made for it. *)
Lemma message_held_at_exit_is_not_routed :
  main_thread (run frozen_clock late_enqueue
                   (loaded (Fin 1) (Fin 99999) [] one_resource sample_address))
  = MStopped
  /\ db (run frozen_clock late_enqueue
             (loaded (Fin 1) (Fin 99999) [] one_resource sample_address)) = []
  /\ pending_resource_queue
       (run frozen_clock late_enqueue
            (loaded (Fin 1) (Fin 99999) [] one_resource sample_address))
     = [sample_message].
Proof. repeat split. Qed.

(** * Further properties of the code *)

(** ** The batch collector *)

(** X1.  Whatever the clock, the time budget and the threshold, a call of
    [_get_messages_in_batch] takes a front segment of the buffer and leaves
    the rest in place: nothing is lost, duplicated or reordered. *)
Theorem batch_is_front_of_buffer (clock : nat -> Z) (q : list pyval)
        (interval threshold : num) (tick : nat) :
  let r := _get_messages_in_batch clock q interval threshold tick in
  batch_of r ++ rest_of r = q
  /\ batch_of r = firstn (length (batch_of r)) q
  /\ rest_of r = skipn (length (batch_of r)) q.
Proof.
  intros r. pose proof (get_batch_split clock q interval threshold tick) as H.
  fold r in H. split; [exact H|].
  assert (Haux : forall b t : list pyval,
             firstn (length b) (b ++ t) = b /\ skipn (length b) (b ++ t) = t).
  { induction b as [|x b IH]; intros t; simpl; [auto|].
    destruct (IH t) as [A B]. rewrite A. auto. }
  destruct (Haux (batch_of r) (rest_of r)) as [A B].
  rewrite H in A, B. split; symmetry; assumption.
Qed.

Section BatchLimits.

Variable clock : nat -> Z.

Lemma batch_loop_limit start interval threshold n : forall q acc t,
  n <= length q ->
  (forall i, i < n ->
             ge_num (clock (t + i) - start)%Z interval = false
             /\ ge_num (Z.of_nat (length acc + i)) threshold = false) ->
  (n = length q
   \/ ge_num (clock (t + n) - start)%Z interval = true
   \/ ge_num (Z.of_nat (length acc + n)) threshold = true) ->
  batch_loop clock start interval threshold q acc t
  = (acc ++ firstn n q, skipn n q, S (t + n)).
Proof.
  induction n as [|n IH]; intros q acc t Hn Hpass Hstop.
  - rewrite !Nat.add_0_r in *. simpl. rewrite app_nil_r.
    destruct q as [|x q]; simpl.
    + destruct (_ || _); reflexivity.
    + destruct Hstop as [H|[H|H]]; [discriminate| |]; rewrite H;
        rewrite ?orb_true_r; reflexivity.
  - destruct q as [|x q]; [simpl in Hn; lia|]. simpl.
    destruct (Hpass 0) as [H1 H2]; [lia|]. rewrite !Nat.add_0_r in *.
    rewrite H1, H2. simpl.
    rewrite (IH q (acc ++ [x]) (S t)).
    + rewrite <- app_assoc. simpl. repeat f_equal. lia.
    + simpl in Hn. lia.
    + intros i Hi. destruct (Hpass (S i)) as [H3 H4]; [lia|].
      rewrite length_app. cbn [length].
      replace (S t + i) with (t + S i) by lia.
      replace (length acc + 1 + i) with (length acc + S i) by lia. auto.
    + rewrite length_app. cbn [length]. cbn [length] in Hstop.
      replace (S t + n) with (t + S n) by lia.
      replace (length acc + 1 + n) with (length acc + S n) by lia.
      destruct Hstop as [H|[H|H]]; auto.
Qed.

Lemma batch_loop_time_bound start T threshold : forall q acc t c,
  (forall n, (clock n + 1 <= clock (S n))%Z) ->
  (c <= clock t - start)%Z ->
  (Z.of_nat (length (batch_of
      (batch_loop clock start (Fin T) threshold q acc t)))
   <= Z.of_nat (length acc) + Z.max 0 (T - c))%Z.
Proof.
  unfold batch_of. induction q as [|x q IH]; intros acc t c Hclock Hc; simpl.
  - destruct (_ || _); simpl; lia.
  - destruct (T <=? clock t - start)%Z eqn:E; simpl; [lia|].
    apply Z.leb_gt in E.
    destruct (ge_num _ threshold); simpl; [lia|].
    pose proof (Hclock t) as Ht.
    assert (Hc' : (c + 1 <= clock (S t) - start)%Z) by lia.
    specialize (IH (acc ++ [x]) (S t) (c + 1)%Z Hclock Hc').
    rewrite length_app in IH. simpl in IH. lia.
Qed.

End BatchLimits.

(** X2.  A call of [_get_messages_in_batch] stops at the first of three
    events: the time budget is found used up, the count threshold is found
    reached, or the buffer is found empty.  If the first [n] tests of the
    loop pass and the next one fails or the buffer holds just [n] messages,
    the call returns the first [n] messages, leaves the others and has read
    the clock [n + 2] times. *)
Theorem batch_stops_at_first_limit (clock : nat -> Z) (q : list pyval)
        (interval threshold : num) (tick n : nat) :
  n <= length q ->
  (forall i, i < n ->
             ge_num (clock (S tick + i)%nat - clock tick)%Z interval = false
             /\ ge_num (Z.of_nat i) threshold = false) ->
  (n = length q
   \/ ge_num (clock (S tick + n)%nat - clock tick)%Z interval = true
   \/ ge_num (Z.of_nat n) threshold = true) ->
  _get_messages_in_batch clock q interval threshold tick
  = (firstn n q, skipn n q, S (S tick + n)).
Proof.
  intros Hn Hpass Hstop. unfold _get_messages_in_batch.
  apply (batch_loop_limit clock (clock tick) interval threshold n q [] (S tick));
    assumption.
Qed.

Lemma batch_stops_at_first_limit_witness :
  2 <= length [VInt 1; VInt 2; VInt 3]
  /\ _get_messages_in_batch ticking_clock [VInt 1; VInt 2; VInt 3] (Fin 3) Inf 0
     = ([VInt 1; VInt 2], [VInt 3], 4).
Proof.
  assert (H1 : 2 <= length [VInt 1; VInt 2; VInt 3]) by (simpl; lia).
  refine (conj H1 _).
  apply (batch_stops_at_first_limit ticking_clock [VInt 1; VInt 2; VInt 3]
           (Fin 3) Inf 0 2 H1).
  - intros i Hi. destruct i as [|[|i]]; [split; reflexivity ..|lia].
  - right. left. reflexivity.
Defined.

(** X3.  When every reading of the clock is at least one unit later than
    the one before, a call with time budget [T] returns fewer than [T]
    messages, and none when [T] is not positive, however many the buffer
    holds and whatever the threshold. *)
Theorem time_budget_bounds_batch (clock : nat -> Z) (q : list pyval)
        (T : Z) (threshold : num) (tick : nat) :
  (forall n, (clock n + 1 <= clock (S n))%Z) ->
  (Z.of_nat (length (batch_of
      (_get_messages_in_batch clock q (Fin T) threshold tick)))
   <= Z.max 0 (T - 1))%Z.
Proof.
  intros Hclock. unfold _get_messages_in_batch.
  pose proof (batch_loop_time_bound clock (clock tick) T threshold q [] (S tick) 1
                Hclock) as H.
  simpl length in H. apply H. pose proof (Hclock tick). lia.
Qed.

Lemma time_budget_bounds_batch_witness :
  (forall n, (ticking_clock n + 1 <= ticking_clock (S n))%Z)
  /\ (Z.of_nat (length (batch_of
        (_get_messages_in_batch ticking_clock buffer150 (Fin 10) Inf 0)))
      <= Z.max 0 (10 - 1))%Z.
Proof.
  assert (H : forall n, (ticking_clock n + 1 <= ticking_clock (S n))%Z)
    by (intros n; unfold ticking_clock; lia).
  refine (conj H _).
  exact (time_budget_bounds_batch ticking_clock buffer150 10 Inf 0 H).
Defined.

(** ** The persistence backend *)

Lemma dict_get_set_same m k v : dict_get (dict_set m k v) k = Some v.
Proof.
  induction m as [|[k' w] m IH]; simpl.
  - rewrite String.eqb_refl. reflexivity.
  - destruct (String.eqb k' k) eqn:E; simpl; rewrite E; [reflexivity | exact IH].
Qed.

Lemma dict_get_set_other m k v c :
  k <> c -> dict_get (dict_set m k v) c = dict_get m c.
Proof.
  intros Hne. induction m as [|[k' w] m IH]; simpl.
  - apply String.eqb_neq in Hne. rewrite Hne. reflexivity.
  - destruct (String.eqb k' k) eqn:E; simpl.
    + apply String.eqb_eq in E. subst k'.
      apply String.eqb_neq in Hne. rewrite Hne. reflexivity.
    + destruct (String.eqb k' c); [reflexivity | exact IH].
Qed.

Lemma dict_set_fresh m k v :
  ~ In k (map fst m) -> map fst (dict_set m k v) = map fst m ++ [k].
Proof.
  induction m as [|[k' w] m IH]; simpl; intros Hn; [reflexivity|].
  destruct (String.eqb k' k) eqn:E.
  - apply String.eqb_eq in E. exfalso. apply Hn. left. assumption.
  - simpl. rewrite IH; [reflexivity|]. intros H. apply Hn. right. assumption.
Qed.

(** The mapping built for one message: its keys are the columns, in order,
    behind those it started with, and each holds the field of the
    message. *)
Lemma mapping_content msg : forall columns m0 m,
  NoDup columns ->
  (forall c, In c columns -> ~ In c (map fst m0)) ->
  Database.mapping columns msg m0 = Ok m ->
  map fst m = map fst m0 ++ columns
  /\ (forall c, In c columns ->
                exists v, subscript msg c = Ok v /\ dict_get m c = Some v)
  /\ (forall c, ~ In c columns -> dict_get m c = dict_get m0 c).
Proof.
  induction columns as [|column columns IH]; intros m0 m Hnd Hfresh Hm.
  - simpl in Hm. inversion Hm; subst. rewrite app_nil_r.
    split; [reflexivity|]. split; [intros c []|reflexivity].
  - simpl in Hm.
    destruct (subscript msg column) as [v|] eqn:Ev; [|discriminate].
    inversion Hnd as [|? ? Hnotin Hnd']; subst.
    assert (Hkeys : map fst (dict_set m0 column v) = map fst m0 ++ [column]).
    { apply dict_set_fresh. apply Hfresh. left. reflexivity. }
    destruct (IH (dict_set m0 column v) m Hnd') as (K & V & O).
    + intros c Hc. rewrite Hkeys. intros Hin.
      apply in_app_or in Hin. destruct Hin as [Hin|[Hin|[]]].
      * apply (Hfresh c); [right; assumption | assumption].
      * subst. contradiction.
    + assumption.
    + split; [|split].
      * rewrite K, Hkeys, <- app_assoc. reflexivity.
      * intros c [Hc|Hc].
        -- subst c. exists v. split; [assumption|].
           rewrite (O column Hnotin). apply dict_get_set_same.
        -- apply V. assumption.
      * intros c Hc. rewrite O by (intros H; apply Hc; right; assumption).
        apply dict_get_set_other. intros ->. apply Hc. left. reflexivity.
Qed.

Lemma generate_mappings_content table : forall messages columns mappings,
  NoDup (columns_used table columns) ->
  Database._generate_mappings table columns messages = Ok mappings ->
  Forall2 (fun msg m =>
             map fst m = columns_used table columns
             /\ forall c, In c (columns_used table columns) ->
                          exists v, subscript msg c = Ok v /\ dict_get m c = Some v)
          messages mappings.
Proof.
  induction messages as [|msg messages IH]; intros columns mappings Hnd Hg;
    simpl in Hg.
  - inversion Hg. constructor.
  - fold (columns_used table columns) in Hg.
    destruct (Database.mapping (columns_used table columns) msg []) as [m|] eqn:Em;
      [|discriminate].
    destruct (Database._generate_mappings table
                (Some (columns_used table columns)) messages) as [ms|] eqn:Eg;
      [|discriminate].
    inversion Hg; subst. constructor.
    + destruct (mapping_content msg (columns_used table columns) [] m Hnd)
        as (K & V & _); [intros c _ [] | assumption | auto].
    + apply (IH (Some (columns_used table columns)) ms); assumption.
Qed.

Lemma generate_mappings_length table : forall messages columns mappings,
  Database._generate_mappings table columns messages = Ok mappings ->
  length mappings = length messages.
Proof.
  induction messages as [|msg messages IH]; intros columns mappings Hg;
    simpl in Hg.
  - inversion Hg. reflexivity.
  - destruct (Database.mapping _ msg []); [|discriminate].
    destruct (Database._generate_mappings table _ messages) as [ms|] eqn:Eg;
      [|discriminate].
    inversion Hg; subst. simpl. f_equal. apply (IH _ ms Eg).
Qed.

(** X4.  When [_generate_mappings] succeeds it returns one mapping per
    message, in order; the keys of each mapping are exactly the columns
    asked for (those of the table when none are given), in order, and each
    holds the field of the message: any other field of the message is left
    out. *)
Theorem mappings_project_messages (table : list string)
        (columns : option (list string)) (messages : list pyval)
        (mappings : list (list (string * pyval))) :
  NoDup (columns_used table columns) ->
  Database._generate_mappings table columns messages = Ok mappings ->
  length mappings = length messages
  /\ Forall2 (fun msg m =>
                map fst m = columns_used table columns
                /\ forall c, In c (columns_used table columns) ->
                             exists v, subscript msg c = Ok v
                                       /\ dict_get m c = Some v)
             messages mappings.
Proof.
  intros Hnd Hg. split.
  - apply (generate_mappings_length table messages columns mappings Hg).
  - apply generate_mappings_content; assumption.
Qed.

Lemma Status_NoDup : NoDup Database.Status.
Proof.
  unfold Database.Status.
  repeat (constructor; [simpl; intuition discriminate|]). constructor.
Qed.

Lemma mappings_project_messages_witness :
  NoDup (columns_used Database.Status None)
  /\ Database._generate_mappings Database.Status None [new_task]
     = Ok [[("task_id", VInt 1); ("task_status_name", VStr "pending");
            ("timestamp", VStr "2024-01-01 00:00:00"); ("run_id", VStr "r1")]]
  /\ length [[("task_id", VInt 1); ("task_status_name", VStr "pending");
              ("timestamp", VStr "2024-01-01 00:00:00"); ("run_id", VStr "r1")]]
     = length [new_task].
Proof.
  assert (H1 : NoDup (columns_used Database.Status None)) by exact Status_NoDup.
  assert (H2 : Database._generate_mappings Database.Status None [new_task]
               = Ok [[("task_id", VInt 1); ("task_status_name", VStr "pending");
                      ("timestamp", VStr "2024-01-01 00:00:00");
                      ("run_id", VStr "r1")]]) by reflexivity.
  refine (conj H1 (conj H2 _)).
  exact (proj1 (mappings_project_messages Database.Status None [new_task] _ H1 H2)).
Defined.

Lemma mapping_missing msg entries c : forall pre post m0,
  msg = VDict entries ->
  has_fields pre msg = true ->
  dict_get entries c = None ->
  Database.mapping (pre ++ c :: post) msg m0 = Raise (KeyError c).
Proof.
  induction pre as [|p pre IH]; intros post m0 -> Hpre Hc; simpl.
  - rewrite Hc. reflexivity.
  - simpl in Hpre. apply andb_true_iff in Hpre. destruct Hpre as [Hp Hpre].
    simpl in Hp. destruct (dict_get entries p); [|discriminate].
    apply IH; auto.
Qed.

Lemma mapping_not_dict msg column columns m0 :
  (forall entries, msg <> VDict entries) ->
  Database.mapping (column :: columns) msg m0 = Raise TypeError.
Proof.
  intros H. simpl. destruct msg; try reflexivity.
  exfalso. apply (H entries). reflexivity.
Qed.

Lemma generate_mappings_after_good table e : forall good columns l,
  forallb (has_fields (columns_used table columns)) good = true ->
  Database._generate_mappings table (Some (columns_used table columns)) l
  = Raise e ->
  Database._generate_mappings table columns (good ++ l) = Raise e.
Proof.
  induction good as [|msg good IH]; intros columns l Hgood Hl.
  - destruct l as [|x l]; [discriminate|]. simpl in *. exact Hl.
  - simpl in Hgood. apply andb_true_iff in Hgood. destruct Hgood as [Hm Hgood].
    simpl. fold (columns_used table columns).
    pose proof (mapping_spec (columns_used table columns) msg []) as Hs.
    destruct (Database.mapping (columns_used table columns) msg []);
      [|congruence].
    rewrite (IH (Some (columns_used table columns)) l); auto.
Qed.

(** X5.  [_generate_mappings] raises at the first message it cannot map,
    whatever follows it: [KeyError] naming the first column the message
    lacks when the message is a dict, [TypeError] when it is not a dict
    and there is a column to look up.  No mapping is returned for the
    messages before it. *)
Theorem first_unmappable_message_raises (table : list string)
        (columns : option (list string)) (good rest : list pyval) (bad : pyval) :
  forallb (has_fields (columns_used table columns)) good = true ->
  (forall entries pre c post,
      bad = VDict entries ->
      columns_used table columns = pre ++ c :: post ->
      has_fields pre bad = true ->
      dict_get entries c = None ->
      Database._generate_mappings table columns (good ++ bad :: rest)
      = Raise (KeyError c))
  /\ ((forall entries, bad <> VDict entries) ->
      columns_used table columns <> [] ->
      Database._generate_mappings table columns (good ++ bad :: rest)
      = Raise TypeError).
Proof.
  intros Hgood. split.
  - intros entries pre c post Hbad Hcols Hpre Hc.
    apply generate_mappings_after_good; [assumption|].
    simpl. rewrite Hcols.
    rewrite (mapping_missing bad entries c pre post [] Hbad Hpre Hc). reflexivity.
  - intros Hnd Hne.
    apply generate_mappings_after_good; [assumption|].
    simpl. destruct (columns_used table columns) as [|column cols];
      [congruence|].
    rewrite (mapping_not_dict bad column cols [] Hnd). reflexivity.
Qed.

Lemma first_unmappable_message_raises_witness :
  forallb (has_fields (columns_used Database.Status None)) [new_task] = true
  /\ Database._generate_mappings Database.Status None
       ([new_task] ++ VDict [("task_id", VInt 2)] :: [returned_task])
     = Raise (KeyError "task_status_name").
Proof.
  assert (H : forallb (has_fields (columns_used Database.Status None)) [new_task]
              = true) by reflexivity.
  refine (conj H _).
  apply (proj1 (first_unmappable_message_raises Database.Status None
                  [new_task] [returned_task] (VDict [("task_id", VInt 2)]) H)
           [("task_id", VInt 2)] ["task_id"] "task_status_name"
           ["timestamp"; "run_id"]); reflexivity.
Defined.


(** ** The shutdown flag and the batching parameters *)

Lemma start_frame clock s :
  _kill_event (start clock s) = _kill_event s
  /\ batching_interval (start clock s) = batching_interval s
  /\ batching_threshold (start clock s) = batching_threshold s
  /\ priority_queue (start clock s) = priority_queue s
  /\ resource_queue (start clock s) = resource_queue s
  /\ _priority_queue_pull_thread (start clock s) = _priority_queue_pull_thread s
  /\ _resource_queue_pull_thread (start clock s) = _resource_queue_pull_thread s.
Proof.
  destruct (main_thread s) eqn:Em.
  - rewrite (start_from_check clock s Em). repeat split.
  - rewrite (start_priority clock s Em). repeat split.
  - rewrite (start_resource clock s Em). repeat split.
  - unfold start. rewrite Em. repeat split.
  - unfold start. rewrite Em. repeat split.
Qed.

Ltac forwarder_cases tag s :=
  unfold _migrate_logs_to_internal, forward;
  destruct tag;
  (destruct (thread_pc _ s) as [|item| |] eqn:?;
   [destruct (logs_queue _ s); [destruct (_kill_event s) eqn:?|]
   |destruct (unpack2 item) as [[? ?]|]
   | | ]);
  repeat match goal with
    | |- context [if eq_str ?x STOP then _ else _] => destruct (eq_str x STOP)
    | |- context [match subscript_last ?x with _ => _ end] =>
        destruct (subscript_last x)
    end.

Lemma forwarder_parameters tag s interval threshold :
  (_kill_event s = true ->
   batching_interval s = Inf /\ batching_threshold s = Inf) ->
  (_kill_event s = false ->
   batching_interval s = interval /\ batching_threshold s = threshold) ->
  (_kill_event (_migrate_logs_to_internal tag s) = true ->
   batching_interval (_migrate_logs_to_internal tag s) = Inf
   /\ batching_threshold (_migrate_logs_to_internal tag s) = Inf)
  /\ (_kill_event (_migrate_logs_to_internal tag s) = false ->
      batching_interval (_migrate_logs_to_internal tag s) = interval
      /\ batching_threshold (_migrate_logs_to_internal tag s) = threshold)
  /\ (_kill_event s = true ->
      _kill_event (_migrate_logs_to_internal tag s) = true).
Proof.
  intros H1 H2. forwarder_cases tag s; simpl;
    (split; [|split]); intros; try discriminate; auto;
    try congruence; try (apply H1; congruence); try (apply H2; congruence).
Qed.

(** The parameters are those given at construction until the kill event is
    set, and infinite from then on. *)
Lemma parameters_follow_flag clock interval threshold schedule : forall s,
  (_kill_event s = true ->
   batching_interval s = Inf /\ batching_threshold s = Inf) ->
  (_kill_event s = false ->
   batching_interval s = interval /\ batching_threshold s = threshold) ->
  (_kill_event (run clock schedule s) = true ->
   batching_interval (run clock schedule s) = Inf
   /\ batching_threshold (run clock schedule s) = Inf)
  /\ (_kill_event (run clock schedule s) = false ->
      batching_interval (run clock schedule s) = interval
      /\ batching_threshold (run clock schedule s) = threshold).
Proof.
  induction schedule as [|t schedule IH]; intros s H1 H2; [auto|].
  simpl. destruct t as [|tag]; simpl.
  - destruct (start_frame clock s) as (Ek & Ei & Et & _).
    apply IH; rewrite Ek, Ei, Et; assumption.
  - destruct (forwarder_parameters tag s interval threshold H1 H2)
      as (A & B & _).
    apply IH; assumption.
Qed.

Lemma flag_stays_set clock schedule : forall s,
  _kill_event s = true -> _kill_event (run clock schedule s) = true.
Proof.
  induction schedule as [|t schedule IH]; intros s H; [assumption|].
  simpl. apply IH. destruct t as [|tag]; simpl.
  - rewrite (proj1 (start_frame clock s)). assumption.
  - forwarder_cases tag s; simpl; auto; congruence.
Qed.


(** ** What the forwarders touch *)

(** What a step of a forwarder leaves as it was. *)
Lemma forwarder_frame (tag : queue_tag) (s : state) :
  let s' := _migrate_logs_to_internal tag s in
  db s' = db s /\ ticks s' = ticks s /\ main_thread s' = main_thread s
  /\ (pending_priority_queue s' = pending_priority_queue s
      \/ exists x, pending_priority_queue s' = pending_priority_queue s ++ [x])
  /\ (pending_resource_queue s' = pending_resource_queue s
      \/ exists x, pending_resource_queue s' = pending_resource_queue s ++ [x])
  /\ match tag with
     | resource =>
         _kill_event s' = _kill_event s
         /\ batching_interval s' = batching_interval s
         /\ batching_threshold s' = batching_threshold s
         /\ pending_priority_queue s' = pending_priority_queue s
         /\ priority_queue s' = priority_queue s
         /\ thread_pc priority s' = thread_pc priority s
     | priority =>
         pending_resource_queue s' = pending_resource_queue s
         /\ resource_queue s' = resource_queue s
         /\ thread_pc resource s' = thread_pc resource s
     end.
Proof.
  cbv zeta. forwarder_cases tag s; simpl;
    repeat (split; try reflexivity);
    first [congruence | left; reflexivity | right; eexists; reflexivity].
Qed.

(** X8.  A step of a forwarder never touches the session, the clock or the
    thread running [start]; it appends at most one item to a pending
    buffer and removes nothing from either.  The resource forwarder, in
    addition, never sets the kill event nor changes the batching
    parameters, whatever it receives, and leaves the priority channel and
    buffer alone; the priority forwarder leaves the resource channel and
    buffer alone. *)
Theorem forwarders_leave_session_alone (tag : queue_tag) (s : state) :
  let s' := _migrate_logs_to_internal tag s in
  db s' = db s /\ ticks s' = ticks s /\ main_thread s' = main_thread s
  /\ (pending_priority_queue s' = pending_priority_queue s
      \/ exists x, pending_priority_queue s' = pending_priority_queue s ++ [x])
  /\ (pending_resource_queue s' = pending_resource_queue s
      \/ exists x, pending_resource_queue s' = pending_resource_queue s ++ [x])
  /\ match tag with
     | resource =>
         _kill_event s' = _kill_event s
         /\ batching_interval s' = batching_interval s
         /\ batching_threshold s' = batching_threshold s
         /\ pending_priority_queue s' = pending_priority_queue s
         /\ priority_queue s' = priority_queue s
         /\ thread_pc priority s' = thread_pc priority s
     | priority =>
         pending_resource_queue s' = pending_resource_queue s
         /\ resource_queue s' = resource_queue s
         /\ thread_pc resource s' = thread_pc resource s
     end.
Proof.
  cbv zeta. forwarder_cases tag s; simpl;
    repeat (split; try reflexivity);
    first [congruence | left; reflexivity | right; eexists; reflexivity].
Qed.

(** ** Items behind the sentinel *)

Lemma forward_all_app tag n m :
  forward_all tag (n + m) = forward_all tag n ++ forward_all tag m.
Proof.
  induction n as [|n IH]; [reflexivity|].
  simpl. rewrite IH. reflexivity.
Qed.

Lemma forward_any_payload clock rem : forall tail s,
  forallb (fun x => negb (eq_str x STOP)) (map fst rem) = true ->
  thread_pc priority s = FPoll ->
  priority_queue s = map item_of rem ++ tail ->
  run clock (forward_all priority (length rem)) s
  = with_priority (pending_priority_queue s ++ map fst rem) tail s.
Proof.
  induction rem as [|[x a] rem IH]; intros tail s Hns Hpc Hq.
  - destruct s; simpl in *. subst. rewrite app_nil_r. reflexivity.
  - simpl in Hns. apply andb_true_iff in Hns. destruct Hns as [Hx Hns].
    apply negb_true_iff in Hx. simpl in Hq.
    change (run clock (forward_all priority (length ((x, a) :: rem))) s)
      with (run clock (forward_all priority (length rem))
              (_migrate_logs_to_internal priority
                 (_migrate_logs_to_internal priority s))).
    rewrite (forwarder_two_steps priority s _ _ Hpc Hq).
    unfold forward at 1. unfold item_of at 1. cbn [fst snd].
    rewrite unpack2_pair, Hx.
    rewrite (IH tail) by (try assumption; reflexivity).
    destruct s; simpl. rewrite <- app_assoc. reflexivity.
Qed.

Lemma forward_stop_then clock s addr tail :
  thread_pc priority s = FPoll ->
  priority_queue s = stop_item addr :: tail ->
  run clock (forward_all priority 1) s
  = with_priority (pending_priority_queue s) tail (close s).
Proof.
  intros Hpc Hq.
  change (run clock (forward_all priority 1) s)
    with (_migrate_logs_to_internal priority
            (_migrate_logs_to_internal priority s)).
  rewrite (forwarder_two_steps priority s _ _ Hpc Hq), forward_priority_stop.
  destruct s; reflexivity.
Qed.

(** X9.  The sentinel does not cut the priority channel short: the
    forwarder goes on after it until the channel is empty, so the payloads
    enqueued behind ['STOP'] reach the pending buffer like those before it,
    in order, whatever they are; only then does the thread return. *)
Theorem payloads_behind_the_sentinel_are_forwarded
        (clock : nat -> Z) (interval threshold : num)
        (before behind : list (pyval * pyval)) (addr : pyval)
        (resource_msgs : list pyval) :
  forallb (fun x => negb (eq_str x STOP)) (map fst before) = true ->
  forallb (fun x => negb (eq_str x STOP)) (map fst behind) = true ->
  let s := run clock
               (forward_all priority (length before + 1 + length behind))
               (initial interval threshold
                  (map item_of before ++ stop_item addr :: map item_of behind)
                  resource_msgs) in
  pending_priority_queue s = map fst before ++ map fst behind
  /\ priority_queue s = []
  /\ _kill_event s = true
  /\ thread_pc priority s = FPoll
  /\ thread_pc priority (_migrate_logs_to_internal priority s) = FDone.
Proof.
  intros H1 H2 s. subst s.
  rewrite !forward_all_app, !run_app.
  rewrite (forward_any_payload clock before (stop_item addr :: map item_of behind))
    by (try assumption; reflexivity).
  rewrite (forward_stop_then clock _ addr (map item_of behind)) by reflexivity.
  rewrite (forward_any_payload clock behind [])
    by (try assumption; simpl; rewrite ?app_nil_r; reflexivity).
  simpl. repeat split.
Qed.

Lemma payloads_behind_the_sentinel_are_forwarded_witness :
  forallb (fun x => negb (eq_str x STOP)) (map fst one_task) = true
  /\ forallb (fun x => negb (eq_str x STOP)) (map fst whole_workflow) = true
  /\ pending_priority_queue
       (run frozen_clock (forward_all priority (1 + 1 + 4))
            (initial (Fin 1) (Fin 99999)
               (map item_of one_task
                  ++ stop_item sample_address :: map item_of whole_workflow) []))
     = map fst one_task ++ map fst whole_workflow.
Proof.
  assert (H1 : forallb (fun x => negb (eq_str x STOP)) (map fst one_task) = true)
    by reflexivity.
  assert (H2 : forallb (fun x => negb (eq_str x STOP)) (map fst whole_workflow)
               = true) by reflexivity.
  refine (conj H1 (conj H2 _)).
  exact (proj1 (payloads_behind_the_sentinel_are_forwarded frozen_clock
                  (Fin 1) (Fin 99999) one_task whole_workflow sample_address []
                  H1 H2)).
Defined.

(** ** No sentinel, no end *)

Lemma no_stop_forward s item :
  no_stop item = true ->
  _kill_event (forward priority item s) = _kill_event s
  /\ priority_queue (forward priority item s) = priority_queue s
  /\ match thread_pc priority (forward priority item s) with
     | FGot _ => False
     | _ => True
     end.
Proof.
  unfold no_stop, forward.
  destruct (unpack2 item) as [[x a]|]; [|simpl; auto].
  intros H. apply negb_true_iff in H. rewrite H. simpl. auto.
Qed.

Lemma no_stop_step clock t s :
  _kill_event s = false ->
  forallb no_stop (to_forward priority s) = true ->
  main_thread s <> MStopped ->
  _kill_event (step clock t s) = false
  /\ forallb no_stop (to_forward priority (step clock t s)) = true
  /\ main_thread (step clock t s) <> MStopped.
Proof.
  intros Hk Hf Hm. destruct t as [|[|]]; simpl.
  - destruct (start_frame clock s) as (Ek & _ & _ & Eq & _ & Ep & _).
    unfold to_forward in *. simpl thread_pc in *. simpl logs_queue in *.
    rewrite Ek, Eq, Ep. split; [assumption|]. split; [assumption|].
    destruct (main_thread s) eqn:Em.
    + rewrite (start_from_check clock s Em).
      unfold start_condition. rewrite Hk. simpl. discriminate.
    + apply start_not_stopping; rewrite Em; discriminate.
    + apply start_not_stopping; rewrite Em; discriminate.
    + congruence.
    + unfold start. rewrite Em. congruence.
  - rewrite forwarder_main. split; [|split; [|assumption]].
    + unfold _migrate_logs_to_internal. unfold to_forward in Hf.
      destruct (thread_pc priority s) eqn:Epc; simpl logs_queue in *;
        try assumption.
      * destruct (priority_queue s); [rewrite Hk|]; assumption.
      * simpl in Hf. apply andb_true_iff in Hf. destruct Hf as [Hi _].
        rewrite (proj1 (no_stop_forward s item Hi)). assumption.
    + unfold _migrate_logs_to_internal. unfold to_forward in *.
      destruct (thread_pc priority s) eqn:Epc; simpl in Epc;
        simpl logs_queue in *.
      * destruct (priority_queue s) as [|item rest] eqn:Eq.
        -- rewrite Hk. simpl. rewrite Epc, Eq. reflexivity.
        -- simpl. assumption.
      * simpl in Hf. apply andb_true_iff in Hf. destruct Hf as [Hi Hq].
        destruct (no_stop_forward s item Hi) as (_ & Eq & Hpc).
        destruct (thread_pc priority (forward priority item s));
          try contradiction; rewrite Eq; assumption.
      * simpl. rewrite Epc. assumption.
      * simpl. rewrite Epc. assumption.
  - rewrite forwarder_main.
    destruct (forwarder_frame resource s)
      as (_ & _ & _ & _ & _ & Ek & _ & _ & _ & Eq & Ep).
    unfold to_forward in *. simpl logs_queue in *. rewrite Ek, Eq, Ep. auto.
Qed.

(** X10.  Without a sentinel the manager never stops: when no item of the
    priority channel is a pair whose first component is ['STOP'], the kill
    event is never set and the thread running [start] never leaves its loop
    by the loop condition, under any schedule and whatever else the
    channels hold. *)
Theorem no_sentinel_no_stop (clock : nat -> Z) (interval threshold : num)
        (priority_msgs resource_msgs : list pyval) (schedule : list thread) :
  forallb no_stop priority_msgs = true ->
  _kill_event (run clock schedule
                   (initial interval threshold priority_msgs resource_msgs))
  = false
  /\ main_thread (run clock schedule
                      (initial interval threshold priority_msgs resource_msgs))
     <> MStopped.
Proof.
  intros H.
  assert (Hinv : forall sched s,
             _kill_event s = false ->
             forallb no_stop (to_forward priority s) = true ->
             main_thread s <> MStopped ->
             _kill_event (run clock sched s) = false
             /\ main_thread (run clock sched s) <> MStopped).
  { induction sched as [|t sched IH]; intros s Hk Hf Hm; [auto|].
    simpl. destruct (no_stop_step clock t s Hk Hf Hm) as (A & B & C).
    apply IH; assumption. }
  apply Hinv; [reflexivity | exact H | discriminate].
Qed.

Lemma no_sentinel_no_stop_witness :
  forallb no_stop (map item_of whole_workflow) = true
  /\ main_thread (run frozen_clock (sequential 3 0 40)
                      (initial (Fin 1) (Fin 99999)
                         (map item_of whole_workflow) []))
     <> MStopped.
Proof.
  assert (H : forallb no_stop (map item_of whole_workflow) = true)
    by reflexivity.
  refine (conj H _).
  exact (proj2 (no_sentinel_no_stop frozen_clock (Fin 1) (Fin 99999)
                  (map item_of whole_workflow) [] (sequential 3 0 40) H)).
Defined.

(** ** What has been routed, at any time *)



(** ** The priority half of the loop body *)

Lemma select_task_length batch :
  length (select is_task batch)
  = length (select is_new batch) + length (select is_returned batch).
Proof.
  induction batch as [|item batch IH]; [reflexivity|].
  rewrite !select_cons, !length_app, IH.
  destruct (kind_of item) as [[[] msg]|]; simpl; lia.
Qed.

Lemma route_priority_ok_iff batch sess :
  fst (route_priority batch sess) = Ok tt <-> forallb well_formed batch = true.
Proof.
  destruct (route_priority_spec batch sess) as [calls [_ Hr]].
  destruct (forallb well_formed batch).
  - destruct Hr as [Hok _]. split; auto.
  - destruct Hr as [[e He] _]. rewrite He. split; discriminate.
Qed.

(** X12.  A priority half that completes makes exactly one Status insert,
    and it carries every task message of the batch, each once and in the
    order of the batch, whether the message went to the Task insert or to
    the Task update: it has as many messages as the two groups together.
    The insert is made even when the batch has no task message. *)
Theorem status_insert_carries_every_task_message (batch : list pyval)
        (sess : list db_call) :
  fst (route_priority batch sess) = Ok tt ->
  exists calls,
    snd (route_priority batch sess) = sess ++ calls
    /\ calls_of StatusInserts (map call_sig calls)
       = [call_of StatusInserts (select is_task batch)]
    /\ length (select is_task batch)
       = length (routed TaskInserts (map call_sig calls))
         + length (routed TaskUpdates (map call_sig calls))
    /\ forall msg,
        In msg (select is_task batch) <->
        In msg (routed TaskInserts (map call_sig calls))
        \/ In msg (routed TaskUpdates (map call_sig calls)).
Proof.
  intros Hok. apply route_priority_ok_iff in Hok.
  destruct (route_priority_spec batch sess) as [calls [Hs Hr]].
  rewrite Hok in Hr. destruct Hr as [_ Hsig].
  exists calls. split; [assumption|]. rewrite Hsig.
  rewrite !routed_priority_calls.
  split; [|split].
  - rewrite calls_of_app, calls_of_workflow_calls by reflexivity.
    unfold task_calls. rewrite !calls_of_app.
    destruct (nonempty (select is_new batch)),
      (nonempty (select is_returned batch)); reflexivity.
  - rewrite select_task_length. f_equal; f_equal; apply select_ext;
      intros []; reflexivity.
  - intros msg. rewrite !in_select. split.
    + intros (item & k & Hi & Ek & Hk).
      destruct k; try discriminate; [left|right]; exists item;
        eexists; split; [eassumption | split; [eassumption | reflexivity]
                         | eassumption | split; [eassumption | reflexivity]].
    + intros [(item & k & Hi & Ek & Hk)|(item & k & Hi & Ek & Hk)];
        exists item, k; destruct k; try discriminate; auto.
Qed.

Lemma status_insert_carries_every_task_message_witness :
  fst (route_priority (map fst whole_workflow) []) = Ok tt
  /\ exists calls,
      snd (route_priority (map fst whole_workflow) []) = [] ++ calls
      /\ calls_of StatusInserts (map call_sig calls)
         = [call_of StatusInserts (select is_task (map fst whole_workflow))]
      /\ length (select is_task (map fst whole_workflow))
         = length (routed TaskInserts (map call_sig calls))
           + length (routed TaskUpdates (map call_sig calls))
      /\ forall msg,
          In msg (select is_task (map fst whole_workflow)) <->
          In msg (routed TaskInserts (map call_sig calls))
          \/ In msg (routed TaskUpdates (map call_sig calls)).
Proof.
  assert (H : fst (route_priority (map fst whole_workflow) []) = Ok tt)
    by reflexivity.
  refine (conj H _).
  exact (status_insert_carries_every_task_message (map fst whole_workflow) [] H).
Defined.


(** ** A pass with nothing to do *)

Lemma get_batch_empty clock interval threshold tick :
  _get_messages_in_batch clock [] interval threshold tick = ([], [], S (S tick)).
Proof.
  unfold _get_messages_in_batch. simpl. destruct (_ || _); reflexivity.
Qed.

(** X14.  A pass through the loop body that finds both pending buffers
    empty still makes three calls, each with no message and no mapping: the
    Workflow counters update, the Status insert and the Resource insert.
    It reads the clock four times and comes back to the loop condition. *)
Theorem idle_pass_commits_three_empty_calls (clock : nat -> Z) (s : state) :
  main_thread s = MPriority ->
  pending_priority_queue s = [] ->
  pending_resource_queue s = [] ->
  main_thread (start clock (start clock s)) = MCheck
  /\ ticks (start clock (start clock s)) = ticks s + 4
  /\ exists c1 c2 c3,
      db (start clock (start clock s)) = db s ++ [c1; c2; c3]
      /\ map call_sig [c1; c2; c3]
         = [call_of WorkflowCounterUpdates []; call_of StatusInserts [];
            call_of ResourceInserts []]
      /\ c_mappings c1 = [] /\ c_mappings c2 = [] /\ c_mappings c3 = [].
Proof.
  intros Hm Hp Hr.
  rewrite (start_priority clock s Hm). cbv zeta.
  rewrite Hp, get_batch_empty. unfold batch_of, rest_of, tick_of. cbn [fst snd].
  change (route_priority [] (db s))
    with (Ok tt,
          (db s ++ [{| c_op := BulkUpdate; c_table := WORKFLOW;
                       c_columns := Some workflow_counter_columns;
                       c_messages := []; c_mappings := [] |}])
          ++ [{| c_op := BulkInsert; c_table := STATUS; c_columns := None;
                 c_messages := []; c_mappings := [] |}]).
  cbn [fst snd].
  rewrite start_resource by reflexivity. cbv zeta.
  cbn [pending_resource_queue after_priority]. rewrite Hr, get_batch_empty.
  unfold batch_of, rest_of, tick_of. cbn [fst snd].
  cbn [db after_priority].
  change (route_resource []
            ((db s ++ [{| c_op := BulkUpdate; c_table := WORKFLOW;
                          c_columns := Some workflow_counter_columns;
                          c_messages := []; c_mappings := [] |}])
             ++ [{| c_op := BulkInsert; c_table := STATUS; c_columns := None;
                    c_messages := []; c_mappings := [] |}]))
    with (Ok tt,
          ((db s ++ [{| c_op := BulkUpdate; c_table := WORKFLOW;
                        c_columns := Some workflow_counter_columns;
                        c_messages := []; c_mappings := [] |}])
           ++ [{| c_op := BulkInsert; c_table := STATUS; c_columns := None;
                  c_messages := []; c_mappings := [] |}])
          ++ [{| c_op := BulkInsert; c_table := RESOURCE; c_columns := None;
                 c_messages := []; c_mappings := [] |}]).
  cbn [fst snd main_thread ticks db after_resource after_priority].
  split; [reflexivity|]. split; [lia|].
  eexists _, _, _. rewrite <- !app_assoc. split; [reflexivity|].
  repeat split.
Qed.

Lemma idle_pass_commits_three_empty_calls_witness :
  main_thread (holding []) = MPriority
  /\ pending_priority_queue (holding []) = []
  /\ pending_resource_queue (holding []) = []
  /\ main_thread (start frozen_clock (start frozen_clock (holding []))) = MCheck
  /\ ticks (start frozen_clock (start frozen_clock (holding [])))
     = ticks (holding []) + 4.
Proof.
  assert (H1 : main_thread (holding []) = MPriority) by reflexivity.
  assert (H2 : pending_priority_queue (holding []) = []) by reflexivity.
  assert (H3 : pending_resource_queue (holding []) = []) by reflexivity.
  refine (conj H1 (conj H2 (conj H3 _))).
  destruct (idle_pass_commits_three_empty_calls frozen_clock (holding [])
              H1 H2 H3) as (A & B & _).
  exact (conj A B).
Defined.

(** ** After the loop *)

Lemma terminal_start clock s : terminal s = true -> start clock s = s.
Proof.
  unfold terminal, start. destruct (main_thread s); try discriminate; reflexivity.
Qed.

(** X15.  Once the thread running [start] has left its loop, at its end or
    through an exception, no schedule makes another persistence call or
    reads the clock again; the forwarders may go on appending to the
    pending buffers, which nothing reads any more. *)
Theorem after_the_loop_nothing_is_persisted (clock : nat -> Z) (s : state)
        (schedule : list thread) :
  terminal s = true ->
  main_thread (run clock schedule s) = main_thread s
  /\ db (run clock schedule s) = db s
  /\ ticks (run clock schedule s) = ticks s
  /\ exists more_priority more_resource,
      pending_priority_queue (run clock schedule s)
      = pending_priority_queue s ++ more_priority
      /\ pending_resource_queue (run clock schedule s)
         = pending_resource_queue s ++ more_resource.
Proof.
  revert s. induction schedule as [|t schedule IH]; intros s Ht.
  - simpl. repeat split. exists [], []. rewrite !app_nil_r. auto.
  - simpl. destruct t as [|tag]; simpl.
    + rewrite (terminal_start clock s Ht). apply IH. assumption.
    + destruct (forwarder_frame tag s) as (Ed & Et & Em & Hp & Hr & _).
      destruct (IH (_migrate_logs_to_internal tag s)) as (A & B & C & mp & mr & D & E).
      { unfold terminal. rewrite Em. exact Ht. }
      rewrite A, B, C, D, E, Em, Ed, Et.
      split; [reflexivity|]. split; [reflexivity|]. split; [reflexivity|].
      destruct Hp as [-> | [x ->]], Hr as [-> | [y ->]];
        rewrite <- ?app_assoc; eexists _, _; split; reflexivity.
Qed.

Lemma after_the_loop_nothing_is_persisted_witness :
  terminal (start frozen_clock (holding batch_with_bad_message)) = true
  /\ db (run frozen_clock late_enqueue
             (start frozen_clock (holding batch_with_bad_message)))
     = db (start frozen_clock (holding batch_with_bad_message)).
Proof.
  assert (H : terminal (start frozen_clock (holding batch_with_bad_message))
              = true) by reflexivity.
  refine (conj H _).
  destruct (after_the_loop_nothing_is_persisted frozen_clock
              (start frozen_clock (holding batch_with_bad_message))
              late_enqueue H) as (_ & A & _).
  exact A.
Defined.

(** ** A forwarder that dies *)

Lemma start_keeps_looping clock s :
  main_thread s <> MStopped ->
  start_condition s = true ->
  main_thread (start clock s) <> MStopped.
Proof.
  intros Hm Hc. destruct (main_thread s) eqn:Em.
  - rewrite (start_from_check clock s Em), Hc. discriminate.
  - apply start_not_stopping; rewrite Em; discriminate.
  - apply start_not_stopping; rewrite Em; discriminate.
  - congruence.
  - unfold start. rewrite Em. congruence.
Qed.

Lemma crashes_priority_forward s item :
  crashes_priority item = true ->
  crashed (thread_pc priority (forward priority item s)) = true
  /\ _kill_event (forward priority item s) = _kill_event s.
Proof.
  unfold crashes_priority, forward.
  destruct (unpack2 item) as [[x a]|]; [discriminate|]. simpl. auto.
Qed.

Lemma priority_blocked_step clock bad rest t s :
  crashes_priority bad = true ->
  _kill_event s = false ->
  main_thread s <> MStopped ->
  (crashed (thread_pc priority s) = true
   \/ exists pre, forallb no_stop pre = true
                  /\ to_forward priority s = pre ++ bad :: rest) ->
  _kill_event (step clock t s) = false
  /\ main_thread (step clock t s) <> MStopped
  /\ (crashed (thread_pc priority (step clock t s)) = true
      \/ exists pre, forallb no_stop pre = true
                     /\ to_forward priority (step clock t s) = pre ++ bad :: rest).
Proof.
  intros Hbad Hk Hm Hinv. destruct t as [|[|]]; simpl step.
  - destruct (start_frame clock s) as (Ek & _ & _ & Eq & _ & Ep & _).
    unfold to_forward in *. simpl thread_pc in *. simpl logs_queue in *.
    rewrite Ek, Eq, Ep. split; [assumption|]. split; [|assumption].
    apply start_keeps_looping; [assumption|].
    unfold start_condition. rewrite Hk. reflexivity.
  - rewrite forwarder_main.
    unfold _migrate_logs_to_internal. unfold to_forward in *.
    simpl thread_pc in *. simpl logs_queue in *.
    destruct (_priority_queue_pull_thread s) as [|item| |e] eqn:Epc.
    + destruct Hinv as [Hc|(pre & Hpre & Hq)]; [discriminate|].
      rewrite Hq. destruct (pre ++ bad :: rest) as [|item q] eqn:E.
      * destruct pre; discriminate.
      * simpl. rewrite Hk. split; [reflexivity|]. split; [assumption|].
        right. exists pre. rewrite E. auto.
    + destruct Hinv as [Hc|(pre & Hpre & Hq)]; [discriminate|].
      destruct pre as [|p pre]; simpl in Hq; inversion Hq; subst.
      * destruct (crashes_priority_forward s bad Hbad) as [Hc Ek].
        rewrite Ek. auto.
      * simpl in Hpre. apply andb_true_iff in Hpre. destruct Hpre as [Hp Hpre].
        destruct (no_stop_forward s p Hp) as (Ek & Eq & Hpc).
        rewrite Ek. split; [assumption|]. split; [assumption|].
        simpl thread_pc in Hpc.
        destruct (_priority_queue_pull_thread (forward priority p s)) eqn:E;
          try contradiction.
        -- right. exists pre. rewrite Eq. auto.
        -- right. exists pre. rewrite Eq. auto.
        -- left. reflexivity.
    + rewrite Epc. auto.
    + rewrite Epc. auto.
  - rewrite forwarder_main.
    destruct (forwarder_frame resource s)
      as (_ & _ & _ & _ & _ & Ek & _ & _ & _ & Eq & Ep).
    unfold to_forward in *. simpl logs_queue in *. rewrite Ek, Eq, Ep. auto.
Qed.

(** X16.  An item of the priority channel that cannot be unpacked into two
    components ends the priority forwarder, and with it every chance of a
    shutdown: when no sentinel comes before that item, the kill event is
    never set and the thread running [start] never stops, under any
    schedule, even when a sentinel comes behind the item. *)
Theorem unpackable_item_blocks_shutdown (clock : nat -> Z)
        (interval threshold : num) (pre rest resource_msgs : list pyval)
        (bad : pyval) (schedule : list thread) :
  forallb no_stop pre = true ->
  crashes_priority bad = true ->
  _kill_event (run clock schedule
                   (initial interval threshold (pre ++ bad :: rest) resource_msgs))
  = false
  /\ main_thread (run clock schedule
                      (initial interval threshold (pre ++ bad :: rest)
                         resource_msgs))
     <> MStopped.
Proof.
  intros Hpre Hbad.
  assert (Hinv : forall sched s,
             _kill_event s = false ->
             main_thread s <> MStopped ->
             (crashed (thread_pc priority s) = true
              \/ exists pre', forallb no_stop pre' = true
                              /\ to_forward priority s = pre' ++ bad :: rest) ->
             _kill_event (run clock sched s) = false
             /\ main_thread (run clock sched s) <> MStopped).
  { induction sched as [|t sched IH]; intros s Hk Hm Hi; [auto|].
    simpl.
    destruct (priority_blocked_step clock bad rest t s Hbad Hk Hm Hi)
      as (A & B & C).
    apply IH; assumption. }
  apply Hinv; [reflexivity | discriminate |].
  right. exists pre. auto.
Qed.

Lemma unpackable_item_blocks_shutdown_witness :
  forallb no_stop (map item_of one_task) = true
  /\ crashes_priority (VStr STOP) = true
  /\ main_thread (run frozen_clock (sequential 2 0 8)
                      (initial (Fin 1) (Fin 99999)
                         (map item_of one_task
                            ++ VStr STOP :: [stop_item sample_address]) []))
     <> MStopped.
Proof.
  assert (H1 : forallb no_stop (map item_of one_task) = true) by reflexivity.
  assert (H2 : crashes_priority (VStr STOP) = true) by reflexivity.
  refine (conj H1 (conj H2 _)).
  exact (proj2 (unpackable_item_blocks_shutdown frozen_clock (Fin 1) (Fin 99999)
                  (map item_of one_task) [stop_item sample_address] []
                  (VStr STOP) (sequential 2 0 8) H1 H2)).
Defined.

Lemma crashes_resource_forward s item :
  crashes_resource item = true ->
  crashed (thread_pc resource (forward resource item s)) = true
  /\ resource_queue (forward resource item s) = resource_queue s.
Proof.
  unfold crashes_resource, forward.
  destruct (unpack2 item) as [[x a]|]; [|simpl; auto].
  destruct (subscript_last x); [discriminate|]. simpl. auto.
Qed.

Lemma forward_resource_outcome s item :
  resource_queue (forward resource item s) = resource_queue s
  /\ (crashed (thread_pc resource (forward resource item s)) = true
      \/ thread_pc resource (forward resource item s) = FPoll).
Proof.
  unfold forward.
  destruct (unpack2 item) as [[x a]|]; [|simpl; auto].
  destruct (subscript_last x); simpl; auto.
Qed.

Lemma resource_blocked_step clock bad rest t s :
  crashes_resource bad = true ->
  rest <> [] ->
  main_thread s <> MStopped ->
  ((exists pre, to_forward resource s = pre ++ bad :: rest)
   \/ (crashed (thread_pc resource s) = true
       /\ exists l, resource_queue s = l ++ rest)) ->
  main_thread (step clock t s) <> MStopped
  /\ ((exists pre, to_forward resource (step clock t s) = pre ++ bad :: rest)
      \/ (crashed (thread_pc resource (step clock t s)) = true
          /\ exists l, resource_queue (step clock t s) = l ++ rest)).
Proof.
  intros Hbad Hrest Hm Hinv. destruct t as [|[|]]; simpl step.
  - destruct (start_frame clock s) as (_ & _ & _ & _ & Eq & _ & Ep).
    unfold to_forward in *. simpl thread_pc in *. simpl logs_queue in *.
    rewrite Eq, Ep. split; [|assumption].
    apply start_keeps_looping; [assumption|].
    apply start_condition_true. right. right. right. right.
    destruct Hinv as [(pre & Hq)|(_ & l & Hq)].
    + destruct (_resource_queue_pull_thread s);
        try (rewrite Hq; destruct pre; discriminate).
      destruct pre as [|p pre]; simpl in Hq; inversion Hq as [[Hi Hq']];
        rewrite Hq'.
      * assumption.
      * destruct pre; discriminate.
    + rewrite Hq. destruct l; [assumption | discriminate].
  - rewrite forwarder_main. split; [assumption|].
    destruct (forwarder_frame priority s) as (_ & _ & _ & _ & _ & _ & Eq & Ep).
    unfold to_forward in *. simpl logs_queue in *. rewrite Eq, Ep. assumption.
  - rewrite forwarder_main. split; [assumption|].
    unfold _migrate_logs_to_internal. unfold to_forward in *.
    simpl thread_pc in *. simpl logs_queue in *.
    destruct (_resource_queue_pull_thread s) as [|item| |e] eqn:Epc.
    + destruct Hinv as [(pre & Hq)|[Hc _]]; [|discriminate].
      rewrite Hq. destruct (pre ++ bad :: rest) as [|item q] eqn:E.
      * destruct pre; discriminate.
      * simpl. left. exists pre. rewrite E. reflexivity.
    + destruct Hinv as [(pre & Hq)|[Hc _]]; [|discriminate].
      destruct pre as [|p pre]; simpl in Hq; inversion Hq; subst.
      * destruct (crashes_resource_forward s bad Hbad) as [Hc Eq].
        right. split; [assumption|]. exists []. rewrite Eq. reflexivity.
      * destruct (forward_resource_outcome s p) as [Eq [Hc|Hp]].
        -- right. split; [assumption|]. exists (pre ++ [bad]).
           rewrite Eq, <- app_assoc. assumption.
        -- left. exists pre. simpl thread_pc in Hp. rewrite Hp, Eq. assumption.
    + rewrite Epc. assumption.
    + rewrite Epc. assumption.
Qed.

(** X17.  When the resource forwarder dies on an item with other items
    behind it, those items stay on the resource channel for ever, the loop
    condition of [start] stays true, and the manager never stops, sentinel
    or not, under any schedule. *)
Theorem dead_resource_forwarder_blocks_shutdown (clock : nat -> Z)
        (interval threshold : num) (priority_msgs pre rest : list pyval)
        (bad : pyval) (schedule : list thread) :
  crashes_resource bad = true ->
  rest <> [] ->
  main_thread (run clock schedule
                   (initial interval threshold priority_msgs
                      (pre ++ bad :: rest)))
  <> MStopped.
Proof.
  intros Hbad Hrest.
  assert (Hinv : forall sched s,
             main_thread s <> MStopped ->
             ((exists pre', to_forward resource s = pre' ++ bad :: rest)
              \/ (crashed (thread_pc resource s) = true
                  /\ exists l, resource_queue s = l ++ rest)) ->
             main_thread (run clock sched s) <> MStopped).
  { induction sched as [|t sched IH]; intros s Hm Hi; [auto|].
    simpl.
    destruct (resource_blocked_step clock bad rest t s Hbad Hrest Hm Hi)
      as (A & B).
    apply IH; assumption. }
  apply Hinv; [discriminate|]. left. exists pre. reflexivity.
Qed.

Lemma dead_resource_forwarder_blocks_shutdown_witness :
  crashes_resource (item_of (sample_message, sample_address)) = true
  /\ [sample_item] <> []
  /\ main_thread (run frozen_clock (sequential 0 2 8)
                      (initial (Fin 1) (Fin 99999) [stop_item sample_address]
                         ([] ++ item_of (sample_message, sample_address)
                             :: [sample_item])))
     <> MStopped.
Proof.
  assert (H1 : crashes_resource (item_of (sample_message, sample_address)) = true)
    by reflexivity.
  assert (H2 : [sample_item] <> []) by discriminate.
  refine (conj H1 (conj H2 _)).
  exact (dead_resource_forwarder_blocks_shutdown frozen_clock (Fin 1) (Fin 99999)
           [stop_item sample_address] [] [sample_item]
           (item_of (sample_message, sample_address)) (sequential 0 2 8) H1 H2).
Defined.

(** ** The drain after [close] *)

(** X18.  Once the kill event is set, each half of the loop body takes the
    whole of its pending buffer in one call, whatever the clock reads and
    whatever parameters the manager was built with, and leaves the buffer
    empty, whether or not the calls that follow succeed. *)
Theorem after_close_one_pass_empties_buffer (clock : nat -> Z)
        (interval threshold : num) (priority_msgs resource_msgs : list pyval)
        (schedule : list thread) :
  let s := run clock schedule
               (initial interval threshold priority_msgs resource_msgs) in
  _kill_event s = true ->
  (main_thread s = MPriority ->
   pending_priority_queue (start clock s) = []
   /\ batch_of (_get_messages_in_batch clock (pending_priority_queue s)
                  (batching_interval s) (batching_threshold s) (ticks s))
      = pending_priority_queue s)
  /\ (main_thread s = MResource ->
      pending_resource_queue (start clock s) = []
      /\ batch_of (_get_messages_in_batch clock (pending_resource_queue s)
                     (batching_interval s) (batching_threshold s) (ticks s))
         = pending_resource_queue s).
Proof.
  intros s Hk.
  destruct (parameters_follow_flag clock interval threshold schedule
              (initial interval threshold priority_msgs resource_msgs))
    as [A _]; [discriminate | auto |].
  fold s in A. destruct (A Hk) as [Hi Ht]. split; intros Hm.
  - rewrite (start_priority clock s Hm). cbv zeta.
    rewrite Hi, Ht, get_batch_inf. split; reflexivity.
  - rewrite (start_resource clock s Hm). cbv zeta.
    rewrite Hi, Ht, get_batch_inf. split; reflexivity.
Qed.

Lemma after_close_one_pass_empties_buffer_witness :
  _kill_event (run frozen_clock (sequential 4 1 1)
                   (loaded (Fin 0) (Fin 0) whole_workflow one_resource
                      sample_address)) = true
  /\ (main_thread (run frozen_clock (sequential 4 1 1)
                       (loaded (Fin 0) (Fin 0) whole_workflow one_resource
                          sample_address)) = MPriority ->
      pending_priority_queue
        (start frozen_clock
           (run frozen_clock (sequential 4 1 1)
                (loaded (Fin 0) (Fin 0) whole_workflow one_resource
                   sample_address))) = []
      /\ batch_of
           (_get_messages_in_batch frozen_clock
              (pending_priority_queue
                 (run frozen_clock (sequential 4 1 1)
                      (loaded (Fin 0) (Fin 0) whole_workflow one_resource
                         sample_address)))
              (batching_interval
                 (run frozen_clock (sequential 4 1 1)
                      (loaded (Fin 0) (Fin 0) whole_workflow one_resource
                         sample_address)))
              (batching_threshold
                 (run frozen_clock (sequential 4 1 1)
                      (loaded (Fin 0) (Fin 0) whole_workflow one_resource
                         sample_address)))
              (ticks
                 (run frozen_clock (sequential 4 1 1)
                      (loaded (Fin 0) (Fin 0) whole_workflow one_resource
                         sample_address))))
         = pending_priority_queue
             (run frozen_clock (sequential 4 1 1)
                  (loaded (Fin 0) (Fin 0) whole_workflow one_resource
                     sample_address))).
Proof.
  assert (H : _kill_event (run frozen_clock (sequential 4 1 1)
                               (loaded (Fin 0) (Fin 0) whole_workflow
                                  one_resource sample_address)) = true)
    by reflexivity.
  refine (conj H _).
  exact (proj1 (after_close_one_pass_empties_buffer frozen_clock (Fin 0) (Fin 0)
                  (map item_of whole_workflow ++ [stop_item sample_address])
                  (map item_of one_resource) (sequential 4 1 1) H)).
Defined.
